(** * Flying Bird game (project_1.py): model and verified properties

    The game is one Python module built on pygame.  The simulation core is
    [Bird], [Pipe], [reset_game] and the body of [game_loop]; drawing, the
    clock and the window are left out because they never write to the game
    variables.

    Numbers.  Python integers are [Z].  [pygame.Rect] stores four C integers;
    every coordinate of this game stays far inside the 32-bit range, so the
    fields are [Z] as well.  The bird's velocity is a Python float that only
    ever holds multiples of one half (it starts at 0, gains 0.5 per frame, is
    set to -8 by a jump and to 0 at the ceiling); those values and their sums
    are exact in binary64, so the velocity is modelled by the rational [Q],
    kept in lowest terms with [Qred] so that equal values are equal terms.

    pygame.  A float assigned to a [Rect] attribute is stored as the
    nearest integer, a half going away from zero ([Qnearest]): 285.5 is
    stored as 286, 277.5 as 278 and -0.5 as -1.  [Rect.colliderect] is
    pygame's strict overlap test: rectangles of zero size collide with
    nothing and rectangles that only share an edge do not collide. *)

From Stdlib Require Import ZArith QArith Qreduction Qround List Bool Lia Lqa.
Import ListNotations.
Local Open Scope Z_scope.

(** ** Game constants *)

Definition SCREEN_WIDTH : Z := 1000.
Definition SCREEN_HEIGHT : Z := 600.
Definition GROUND_HEIGHT : Z := 100.
Definition PIPE_GAP : Z := 150.
Definition PIPE_WIDTH : Z := 50.
Definition PIPE_SPEED : Z := 3.
Definition BIRD_GRAVITY : Q := 1 # 2.
Definition BIRD_JUMP_STRENGTH : Q := (-8) # 1.

(** The integer a [Rect] stores for a float: the nearest one, a half
    going away from zero (C's [round]). *)
Definition Qnearest (q : Q) : Z :=
  if Qnum q <? 0 then - Qfloor (- q + (1 # 2)) else Qfloor (q + (1 # 2)).

(** [random.randint(a, b)] returns an integer of the closed range [a..b].
    The generator's state is not part of the game, so each draw takes the
    raw entropy as an input and folds it into the range. *)
Definition randint (a b raw : Z) : Z := a + raw mod (b - a + 1).

(** ** pygame.Rect *)

Module Rect.

Record t : Set := mk { x : Z; y : Z; w : Z; h : Z }.

Definition left (r : t) : Z := x r.
Definition top (r : t) : Z := y r.
Definition right (r : t) : Z := x r + w r.
Definition bottom (r : t) : Z := y r + h r.
Definition centerx (r : t) : Z := x r + Z.shiftr (w r) 1.
Definition centery (r : t) : Z := y r + Z.shiftr (h r) 1.

Definition set_x (r : t) (v : Z) : t := mk v (y r) (w r) (h r).
Definition set_y (r : t) (v : Z) : t := mk (x r) v (w r) (h r).
Definition set_top (r : t) (v : Z) : t := set_y r v.
Definition set_bottom (r : t) (v : Z) : t := set_y r (v - h r).
Definition set_center (r : t) (cx cy : Z) : t :=
  mk (cx - Z.shiftr (w r) 1) (cy - Z.shiftr (h r) 1) (w r) (h r).

(** [a.colliderect(b)] *)
Definition colliderect (a b : t) : bool :=
  if (w a =? 0) || (h a =? 0) || (w b =? 0) || (h b =? 0) then false
  else
    (Z.min (x a) (x a + w a) <? Z.max (x b) (x b + w b))
    && (Z.min (y a) (y a + h a) <? Z.max (y b) (y b + h b))
    && (Z.max (x a) (x a + w a) >? Z.min (x b) (x b + w b))
    && (Z.max (y a) (y a + h a) >? Z.min (y b) (y b + h b)).

End Rect.

(** ** class Bird *)

Module Bird.

Record t : Set := mk { rect : Rect.t; velocity : Q }.

(** [Bird()]: a 30 by 30 surface whose rectangle is centred on
    [(SCREEN_WIDTH // 4, SCREEN_HEIGHT // 2)]. *)
Definition init : t :=
  mk (Rect.set_center (Rect.mk 0 0 30 30)
        (SCREEN_WIDTH / 4) (SCREEN_HEIGHT / 2))
     0.

Definition jump (b : t) : t := mk (rect b) BIRD_JUMP_STRENGTH.

Definition update (b : t) : t :=
  let v := Qred (velocity b + BIRD_GRAVITY) in
  let r := Rect.set_y (rect b) (Qnearest (inject_Z (Rect.y (rect b)) + v)) in
  if Rect.top r <? 0 then mk (Rect.set_top r 0) 0 else mk r v.

End Bird.

(** ** class Pipe *)

Module Pipe.

Record t : Set := mk {
  x : Z;
  height : Z;
  passed : bool;
  top_rect : Rect.t;
  bottom_rect : Rect.t
}.

(** [Pipe(x, height)] *)
Definition init (x0 height0 : Z) : t :=
  mk x0 height0 false
     (Rect.mk x0 0 PIPE_WIDTH height0)
     (Rect.mk x0 (height0 + PIPE_GAP) PIPE_WIDTH
        (SCREEN_HEIGHT - (height0 + PIPE_GAP) - GROUND_HEIGHT)).

Definition update (p : t) : t :=
  let x1 := x p - PIPE_SPEED in
  mk x1 (height p) (passed p)
     (Rect.set_x (top_rect p) x1) (Rect.set_x (bottom_rect p) x1).

Definition off_screen (p : t) : bool := x p + PIPE_WIDTH <? 0.

Definition set_passed (p : t) (v : bool) : t :=
  mk (x p) (height p) v (top_rect p) (bottom_rect p).

End Pipe.

(** ** Events of one frame *)

Inductive Key : Set := K_SPACE | K_OTHER.

Inductive Event : Set :=
| QUIT
| KEYDOWN (key : Key)
| OTHER_EVENT.

Definition is_space (k : Key) : bool :=
  match k with K_SPACE => true | K_OTHER => false end.

(** What one pass of the [while] loop reads from outside: the queued events
    and the entropy of the one possible [randint] draw. *)
Record Frame : Set := mkFrame { events : list Event; entropy : Z }.

(** ** The local variables of [game_loop] *)

Record State : Set := mkState {
  bird : Bird.t;
  pipes : list Pipe.t;
  score : Z;
  game_over : bool;
  running : bool;
  start_screen : bool;
  pipe_spawn_timer : Z
}.

Definition pipe_spawn_interval : Z := 90.

Inductive Phase : Set := StartScreen | Playing | GameOver.

(** The three phases are encoded by the two flags [start_screen] and
    [game_over]; the start-screen test comes first everywhere in the loop. *)
Definition phase (st : State) : Phase :=
  if start_screen st then StartScreen
  else if game_over st then GameOver
  else Playing.

(** [reset_game()] returns [(bird, pipes, score, game_over)]. *)
Definition reset_game : Bird.t * list Pipe.t * Z * bool :=
  (Bird.init, [], 0, false).

(** State on entry to the [while] loop. *)
Definition initial_state : State :=
  let '(b, ps, sc, go) := reset_game in
  mkState b ps sc go true true 0.

(** ** Event handling: the body of [for event in pygame.event.get()] *)

Definition handle_event (st : State) (e : Event) : State :=
  let st1 :=
    match e with
    | QUIT =>
        mkState (bird st) (pipes st) (score st) (game_over st) false
          (start_screen st) (pipe_spawn_timer st)
    | _ => st
    end in
  match e with
  | KEYDOWN key =>
      if start_screen st1 && is_space key then
        mkState (bird st1) (pipes st1) (score st1) (game_over st1)
          (running st1) false (pipe_spawn_timer st1)
      else if negb (game_over st1) && is_space key then
        mkState (Bird.jump (bird st1)) (pipes st1) (score st1)
          (game_over st1) (running st1) (start_screen st1)
          (pipe_spawn_timer st1)
      else if game_over st1 && is_space key then
        let '(b, ps, sc, go) := reset_game in
        mkState b ps sc go (running st1) false (pipe_spawn_timer st1)
      else st1
  | _ => st1
  end.

Definition handle_events (st : State) (es : list Event) : State :=
  fold_left handle_event es st.

(** ** Game logic of one frame *)

(** Spawn new pipes: the timer is bumped, and a pipe is appended when the
    interval is reached. *)
Definition spawn_pipes (raw : Z) (ps : list Pipe.t) (timer : Z)
  : list Pipe.t * Z :=
  let timer1 := timer + 1 in
  if timer1 >=? pipe_spawn_interval then
    let pipe_height :=
      randint 100 (SCREEN_HEIGHT - GROUND_HEIGHT - PIPE_GAP - 100) raw in
    (ps ++ [Pipe.init SCREEN_WIDTH pipe_height], 0)
  else (ps, timer1).

(** Body of [for pipe in list(pipes)] for one pipe: the moved pipe, whether
    it stays in [pipes], and the score. *)
Definition pipe_body (bird_x : Z) (p : Pipe.t) (sc : Z)
  : Pipe.t * bool * Z :=
  let p1 := Pipe.update p in
  let keep := negb (Pipe.off_screen p1) in
  if negb (Pipe.passed p1) && (Pipe.x p1 + PIPE_WIDTH <? bird_x) then
    (Pipe.set_passed p1 true, keep, sc + 1)
  else (p1, keep, sc).

(** The whole loop.  Every pipe object occurs once in the list, so
    [pipes.remove(pipe)] drops exactly the pipe at hand; the flag write
    after the removal goes to an object that is no longer in the list. *)
Fixpoint update_pipes (bird_x : Z) (ps : list Pipe.t) (sc : Z)
  : list Pipe.t * Z :=
  match ps with
  | [] => ([], sc)
  | p :: rest =>
      let '(p1, keep, sc1) := pipe_body bird_x p sc in
      let '(rest1, sc2) := update_pipes bird_x rest sc1 in
      (if keep then p1 :: rest1 else rest1, sc2)
  end.

(** Bird hits ground. *)
Definition ground_check (b : Bird.t) (go : bool) : Bird.t * bool :=
  if Rect.bottom (Bird.rect b) >=? SCREEN_HEIGHT - GROUND_HEIGHT then
    (Bird.mk (Rect.set_bottom (Bird.rect b) (SCREEN_HEIGHT - GROUND_HEIGHT))
       (Bird.velocity b),
     true)
  else (b, go).

Definition hits_pipe (b : Bird.t) (p : Pipe.t) : bool :=
  Rect.colliderect (Bird.rect b) (Pipe.top_rect p)
  || Rect.colliderect (Bird.rect b) (Pipe.bottom_rect p).

(** Bird hits pipes. *)
Definition pipe_check (b : Bird.t) (ps : list Pipe.t) (go : bool) : bool :=
  fold_left (fun g p => if hits_pipe b p then true else g) ps go.

(** The block under [if not start_screen and not game_over]. *)
Definition game_logic (raw : Z) (st : State) : State :=
  if negb (start_screen st) && negb (game_over st) then
    let bird1 := Bird.update (bird st) in
    let '(pipes1, timer1) := spawn_pipes raw (pipes st) (pipe_spawn_timer st) in
    let '(pipes2, score1) :=
      update_pipes (Rect.x (Bird.rect bird1)) pipes1 (score st) in
    let '(bird2, game_over1) := ground_check bird1 (game_over st) in
    let game_over2 := pipe_check bird2 pipes2 game_over1 in
    mkState bird2 pipes2 score1 game_over2 (running st) (start_screen st)
      timer1
  else st.

(** One pass of the [while running] loop. *)
Definition frame (f : Frame) (st : State) : State :=
  game_logic (entropy f) (handle_events st (events f)).

(** The loop over a finite prefix of the input; it stops taking frames once
    [running] is false. *)
Fixpoint game_loop (fs : list Frame) (st : State) : State :=
  match fs with
  | [] => st
  | f :: fs' => if running st then game_loop fs' (frame f st) else st
  end.

(** ** Notions used to state the properties *)

(** Overlap on both axes with strict comparisons: sharing only an edge is
    not enough. *)
Definition overlap_strict (a b : Rect.t) : Prop :=
  Rect.left a < Rect.right b /\ Rect.left b < Rect.right a
  /\ Rect.top a < Rect.bottom b /\ Rect.top b < Rect.bottom a.

(** Overlap on both axes where touching edges count. *)
Definition overlap_touching (a b : Rect.t) : Prop :=
  Rect.left a <= Rect.right b /\ Rect.left b <= Rect.right a
  /\ Rect.top a <= Rect.bottom b /\ Rect.top b <= Rect.bottom a.

(** A pipe as the constructor builds it and [update] keeps it, with a gap
    top inside the range of the draw. *)
Definition wf_pipe (p : Pipe.t) : Prop :=
  Pipe.top_rect p = Rect.mk (Pipe.x p) 0 PIPE_WIDTH (Pipe.height p)
  /\ Pipe.bottom_rect p =
       Rect.mk (Pipe.x p) (Pipe.height p + PIPE_GAP) PIPE_WIDTH
         (SCREEN_HEIGHT - (Pipe.height p + PIPE_GAP) - GROUND_HEIGHT)
  /\ 100 <= Pipe.height p <= SCREEN_HEIGHT - GROUND_HEIGHT - PIPE_GAP - 100.

(** What holds of the loop variables at the top of every pass. *)
Record Inv (st : State) : Prop := mkInv {
  inv_bird_x : Rect.x (Bird.rect (bird st)) = 235;
  inv_bird_w : Rect.w (Bird.rect (bird st)) = 30;
  inv_bird_h : Rect.h (Bird.rect (bird st)) = 30;
  inv_pipes : Forall wf_pipe (pipes st);
  inv_flags : start_screen st = true -> game_over st = false
}.

(** [n] calls of [pipe.update()]. *)
Definition updates (n : nat) (p : Pipe.t) : Pipe.t := Nat.iter n Pipe.update p.


(** Number of pipes of the stream whose flag is set. *)
Definition count_passed (ps : list Pipe.t) : Z :=
  Z.of_nat (length (filter Pipe.passed ps)).

(** Number of pipes that one pass of the pipe loop removes. *)
Definition count_retired (ps : list Pipe.t) : Z :=
  Z.of_nat (length (filter (fun p => Pipe.off_screen (Pipe.update p)) ps)).

(** Pipes retired by the game logic of one frame. *)
Definition retired_by_logic (raw : Z) (st : State) : Z :=
  if negb (start_screen st) && negb (game_over st) then
    count_retired (fst (spawn_pipes raw (pipes st) (pipe_spawn_timer st)))
  else 0.

(** Whether the event takes the restart branch. *)
Definition restarts (st : State) (e : Event) : bool :=
  match e with
  | KEYDOWN key => negb (start_screen st) && game_over st && is_space key
  | _ => false
  end.

(** Pipes retired since the current session began: the tally restarts
    from zero with the game. *)
Fixpoint retired_after_events (st : State) (es : list Event) (n : Z) : Z :=
  match es with
  | [] => n
  | e :: es' =>
      retired_after_events (handle_event st e) es'
        (if restarts st e then 0 else n)
  end.

Fixpoint retired (fs : list Frame) (st : State) (n : Z) : Z :=
  match fs with
  | [] => n
  | f :: fs' =>
      if running st then
        retired fs' (frame f st)
          (retired_after_events st (events f) n
           + retired_by_logic (entropy f) (handle_events st (events f)))
      else n
  end.

(** The score is the flags of the stream plus a tally [n] of retired
    pipes. *)
Definition tallied (st : State) (n : Z) : Prop :=
  Inv st /\ 0 <= n /\ score st = count_passed (pipes st) + n.

(** Distance between two successive pipes: one spawn interval of
    scrolling. *)
Definition pipe_spacing : Z := PIPE_SPEED * pipe_spawn_interval.

(** The pipes of [ps] stand one spacing apart and the last one is at
    [last_x]: each pipe's place follows from how many pipes come after
    it. *)
Fixpoint chain (ps : list Pipe.t) (last_x : Z) : Prop :=
  match ps with
  | [] => True
  | p :: rest =>
      Pipe.x p = last_x - pipe_spacing * Z.of_nat (length rest)
      /\ chain rest last_x
  end.

(** The rows of the rectangle lie inside the gap of the pipe. *)
Definition inside_gap (r : Rect.t) (p : Pipe.t) : Prop :=
  Pipe.height p <= Rect.top r
  /\ Rect.bottom r <= Pipe.height p + PIPE_GAP.

(** The rectangle and the pipe share columns. *)
Definition beside (r : Rect.t) (p : Pipe.t) : Prop :=
  Pipe.x p < Rect.right r /\ Rect.left r < Pipe.x p + PIPE_WIDTH.

(** What holds of the playing field at the top of every pass, on top of
    [Inv]. *)
Record Course (st : State) : Prop := mkCourse {
  course_inv : Inv st;
  course_top : 0 <= Rect.top (Bird.rect (bird st));
  course_bottom :
    Rect.bottom (Bird.rect (bird st)) <= SCREEN_HEIGHT - GROUND_HEIGHT;
  course_timer : 0 <= pipe_spawn_timer st < pipe_spawn_interval;
  course_score : 0 <= score st;
  course_chain :
    chain (pipes st)
      (SCREEN_WIDTH - PIPE_SPEED - PIPE_SPEED * pipe_spawn_timer st);
  course_on_screen :
    Forall (fun p => Pipe.off_screen p = false) (pipes st);
  course_flags :
    Forall (fun p => Pipe.passed p
                     = (Pipe.x p + PIPE_WIDTH <? Rect.x (Bird.rect (bird st))))
      (pipes st);
  course_alive :
    game_over st = false ->
    Rect.bottom (Bird.rect (bird st)) < SCREEN_HEIGHT - GROUND_HEIGHT
    /\ Forall (fun p => hits_pipe (bird st) p = false) (pipes st);
  course_dead :
    game_over st = true ->
    Rect.bottom (Bird.rect (bird st)) = SCREEN_HEIGHT - GROUND_HEIGHT
    \/ Exists (fun p => hits_pipe (bird st) p = true) (pipes st)
}.


(** The velocity counted in half pixels per frame: it is [k] halves, with
    [k] in -16..64, and while the game is on, its square is bounded by the
    height already fallen. *)
Definition paced (st : State) : Prop :=
  exists k : Z,
    Bird.velocity (bird st) = Qred (k # 2)
    /\ -16 <= k <= 64
    /\ (game_over st = false ->
        k * k <= 256 + 8 * Rect.y (Bird.rect (bird st))).

Definition is_quit (e : Event) : bool :=
  match e with QUIT => true | _ => false end.

(** A press of the space bar, the one key the game reads. *)
Definition is_space_press (e : Event) : bool :=
  match e with KEYDOWN K_SPACE => true | _ => false end.

(** ** Sample inputs *)

Definition press (raw : Z) : Frame := mkFrame [KEYDOWN K_SPACE] raw.
Definition idle (raw : Z) : Frame := mkFrame [] raw.

(** Start the game, then never touch the keyboard. *)
Definition free_fall (n : nat) : list Frame := press 0 :: repeat (idle 0) n.

(** Start the game, then jump every 30 frames: the bird bobs between
    y = 230 and y = 286 for ever. *)
Definition bobbing (raw : Z) (k : nat) : list Frame :=
  press raw :: concat (repeat (press raw :: repeat (idle raw) 29) k).

(** ** Basic facts *)

Lemma reset_game_eq : reset_game = (Bird.init, [], 0, false).
Proof. reflexivity. Qed.

Lemma bird_init_rect : Bird.rect Bird.init = Rect.mk 235 285 30 30.
Proof. reflexivity. Qed.

Lemma phase_playing_flags (st : State) :
  phase st = Playing <-> start_screen st = false /\ game_over st = false.
Proof.
  unfold phase. destruct (start_screen st), (game_over st); split;
    intros H; try discriminate; try (destruct H; discriminate); auto.
Qed.

Lemma phase_game_over_flags (st : State) :
  phase st = GameOver <-> start_screen st = false /\ game_over st = true.
Proof.
  unfold phase. destruct (start_screen st), (game_over st); split;
    intros H; try discriminate; try (destruct H; discriminate); auto.
Qed.

Lemma phase_start_flags (st : State) :
  phase st = StartScreen <-> start_screen st = true.
Proof.
  unfold phase. destruct (start_screen st), (game_over st); split;
    intros H; try discriminate; auto.
Qed.

(** *** The bird's rectangle keeps its column and its size *)

Lemma bird_update_x (b : Bird.t) :
  Rect.x (Bird.rect (Bird.update b)) = Rect.x (Bird.rect b).
Proof.
  unfold Bird.update. cbv zeta.
  destruct (Rect.top _ <? 0); reflexivity.
Qed.

Lemma bird_update_w (b : Bird.t) :
  Rect.w (Bird.rect (Bird.update b)) = Rect.w (Bird.rect b).
Proof.
  unfold Bird.update. cbv zeta.
  destruct (Rect.top _ <? 0); reflexivity.
Qed.

Lemma bird_update_h (b : Bird.t) :
  Rect.h (Bird.rect (Bird.update b)) = Rect.h (Bird.rect b).
Proof.
  unfold Bird.update. cbv zeta.
  destruct (Rect.top _ <? 0); reflexivity.
Qed.

Lemma ground_check_shape (b : Bird.t) (go : bool) :
  let r := Bird.rect (fst (ground_check b go)) in
  Rect.x r = Rect.x (Bird.rect b) /\ Rect.w r = Rect.w (Bird.rect b)
  /\ Rect.h r = Rect.h (Bird.rect b).
Proof.
  unfold ground_check. destruct (_ >=? _); cbn; auto.
Qed.

(** *** Pipes stay well formed *)

Lemma randint_range (a b raw : Z) :
  a <= b -> a <= randint a b raw <= b.
Proof.
  intros Hab. unfold randint.
  pose proof (Z.mod_pos_bound raw (b - a + 1) ltac:(lia)). lia.
Qed.

Lemma wf_pipe_init (x0 raw : Z) :
  wf_pipe
    (Pipe.init x0
       (randint 100 (SCREEN_HEIGHT - GROUND_HEIGHT - PIPE_GAP - 100) raw)).
Proof.
  unfold wf_pipe, Pipe.init; cbn [Pipe.top_rect Pipe.bottom_rect Pipe.x
    Pipe.height].
  split; [reflexivity | split; [reflexivity |]].
  apply randint_range. vm_compute. discriminate.
Qed.

Lemma wf_pipe_update (p : Pipe.t) : wf_pipe p -> wf_pipe (Pipe.update p).
Proof.
  intros (Ht & Hb & Hh). unfold wf_pipe, Pipe.update; cbn.
  rewrite Ht, Hb. cbn. auto.
Qed.

Lemma wf_pipe_set_passed (p : Pipe.t) (v : bool) :
  wf_pipe p -> wf_pipe (Pipe.set_passed p v).
Proof. intros H. exact H. Qed.

Lemma wf_pipe_body (bx sc : Z) (p : Pipe.t) :
  wf_pipe p -> wf_pipe (fst (fst (pipe_body bx p sc))).
Proof.
  intros H. unfold pipe_body. cbv zeta.
  destruct (negb _ && _); cbn [fst].
  - apply wf_pipe_set_passed, wf_pipe_update, H.
  - apply wf_pipe_update, H.
Qed.

Lemma update_pipes_cons (bx sc : Z) (p : Pipe.t) (rest : list Pipe.t) :
  update_pipes bx (p :: rest) sc =
  let step := pipe_body bx p sc in
  let tail := update_pipes bx rest (snd step) in
  (if snd (fst step) then fst (fst step) :: fst tail else fst tail,
   snd tail).
Proof.
  cbn [update_pipes]. destruct (pipe_body bx p sc) as [[p1 keep] sc1].
  cbn. destruct (update_pipes bx rest sc1). reflexivity.
Qed.

Lemma wf_update_pipes (bx : Z) (ps : list Pipe.t) :
  forall sc, Forall wf_pipe ps -> Forall wf_pipe (fst (update_pipes bx ps sc)).
Proof.
  induction ps as [|p rest IH]; intros sc H.
  - constructor.
  - inversion H as [|? ? Hp Hrest]; subst.
    rewrite update_pipes_cons. cbv zeta. cbn [fst].
    destruct (snd (fst (pipe_body bx p sc))).
    + constructor; [apply wf_pipe_body, Hp | apply IH, Hrest].
    + apply IH, Hrest.
Qed.

Lemma wf_spawn_pipes (raw timer : Z) (ps : list Pipe.t) :
  Forall wf_pipe ps -> Forall wf_pipe (fst (spawn_pipes raw ps timer)).
Proof.
  intros H. unfold spawn_pipes. cbv zeta.
  destruct (_ >=? _); cbn [fst]; [|exact H].
  apply Forall_app. split; [exact H|].
  constructor; [apply wf_pipe_init | constructor].
Qed.

(** *** The pipe check *)

Lemma pipe_check_spec (b : Bird.t) (ps : list Pipe.t) :
  forall go,
    pipe_check b ps go = true <->
    go = true \/ exists p, In p ps /\ hits_pipe b p = true.
Proof.
  unfold pipe_check.
  induction ps as [|p rest IH]; intros go; cbn [fold_left].
  - split; [auto | intros [H | (p & [] & _)]; exact H].
  - rewrite IH. split.
    + intros [H | (q & Hq & Hhit)].
      * destruct (hits_pipe b p) eqn:E.
        -- right. exists p. split; [left; reflexivity | exact E].
        -- left. exact H.
      * right. exists q. split; [right; exact Hq | exact Hhit].
    + intros [H | (q & [-> | Hq] & Hhit)].
      * left. rewrite H. destruct (hits_pipe b p); reflexivity.
      * left. rewrite Hhit. reflexivity.
      * right. exists q. auto.
Qed.

Lemma pipe_check_true (b : Bird.t) (ps : list Pipe.t) :
  pipe_check b ps true = true.
Proof. apply pipe_check_spec. left. reflexivity. Qed.

Lemma colliderect_strict (a b : Rect.t) :
  0 < Rect.w a -> 0 < Rect.h a -> 0 < Rect.w b -> 0 < Rect.h b ->
  Rect.colliderect a b = true <-> overlap_strict a b.
Proof.
  intros Hwa Hha Hwb Hhb.
  unfold Rect.colliderect, overlap_strict, Rect.left, Rect.right, Rect.top,
    Rect.bottom.
  replace (Rect.w a =? 0) with false by (symmetry; apply Z.eqb_neq; lia).
  replace (Rect.h a =? 0) with false by (symmetry; apply Z.eqb_neq; lia).
  replace (Rect.w b =? 0) with false by (symmetry; apply Z.eqb_neq; lia).
  replace (Rect.h b =? 0) with false by (symmetry; apply Z.eqb_neq; lia).
  cbn [orb].
  rewrite !andb_true_iff, !Z.ltb_lt, !Z.gtb_gt. lia.
Qed.

(** *** The invariant of the loop *)

Lemma Inv_initial : Inv initial_state.
Proof.
  constructor; cbn; first [reflexivity | constructor].
Qed.

Lemma Inv_handle_event (st : State) (e : Event) :
  Inv st -> Inv (handle_event st e).
Proof.
  intros [Hx Hw Hh Hp Hf].
  destruct e as [| [|] |]; unfold handle_event; cbv zeta;
    cbn [start_screen game_over is_space andb];
    rewrite ?andb_false_r, ?andb_true_r;
    try (constructor; assumption).
  destruct (start_screen st) eqn:Es.
  - constructor; cbn; auto; discriminate.
  - destruct (game_over st) eqn:Eg; cbn [negb].
    + rewrite reset_game_eq. constructor; cbn; auto; discriminate.
    + constructor; cbn; auto; discriminate.
Qed.

Lemma Inv_handle_events (es : list Event) :
  forall st, Inv st -> Inv (handle_events st es).
Proof.
  unfold handle_events.
  induction es as [|e es IH]; intros st H; cbn [fold_left].
  - exact H.
  - apply IH, Inv_handle_event, H.
Qed.

(** The game logic of a frame in the playing phase, stage by stage. *)
Lemma game_logic_playing (raw : Z) (st : State) :
  phase st = Playing ->
  game_logic raw st =
  let bird1 := Bird.update (bird st) in
  let spawned := spawn_pipes raw (pipes st) (pipe_spawn_timer st) in
  let moved := update_pipes (Rect.x (Bird.rect bird1)) (fst spawned) (score st) in
  let grounded := ground_check bird1 (game_over st) in
  mkState (fst grounded) (fst moved) (snd moved)
    (pipe_check (fst grounded) (fst moved) (snd grounded))
    (running st) (start_screen st) (snd spawned).
Proof.
  intros H. apply phase_playing_flags in H as [Hs Hg].
  unfold game_logic. rewrite Hs, Hg. cbn [negb andb]. cbv zeta.
  destruct (spawn_pipes raw (pipes st) (pipe_spawn_timer st)) as [ps1 t1].
  cbn [fst snd].
  destruct (update_pipes _ ps1 (score st)) as [ps2 sc2].
  destruct (ground_check _ false) as [b2 g2]. reflexivity.
Qed.

Lemma game_logic_idle (raw : Z) (st : State) :
  phase st <> Playing -> game_logic raw st = st.
Proof.
  intros H. unfold game_logic, phase in *.
  destruct (start_screen st), (game_over st); cbn; try reflexivity.
  exfalso. apply H. reflexivity.
Qed.

Lemma Inv_game_logic (raw : Z) (st : State) :
  Inv st -> Inv (game_logic raw st).
Proof.
  intros HI. destruct (phase st) eqn:Ep;
    try (rewrite game_logic_idle; [exact HI | rewrite Ep; discriminate]).
  rewrite (game_logic_playing raw st Ep). cbv zeta.
  destruct HI as [Hx Hw Hh Hp Hf].
  pose proof (ground_check_shape (Bird.update (bird st)) (game_over st))
    as (Gx & Gw & Gh).
  apply phase_playing_flags in Ep as [Hs Hg].
  constructor; cbn [bird pipes start_screen game_over].
  - rewrite Gx, bird_update_x. exact Hx.
  - rewrite Gw, bird_update_w. exact Hw.
  - rewrite Gh, bird_update_h. exact Hh.
  - apply wf_update_pipes, wf_spawn_pipes, Hp.
  - rewrite Hs. discriminate.
Qed.

Lemma Inv_frame (f : Frame) (st : State) : Inv st -> Inv (frame f st).
Proof.
  intros H. unfold frame. apply Inv_game_logic, Inv_handle_events, H.
Qed.

Lemma Inv_game_loop (fs : list Frame) :
  forall st, Inv st -> Inv (game_loop fs st).
Proof.
  induction fs as [|f fs IH]; intros st H; cbn [game_loop].
  - exact H.
  - destruct (running st); [apply IH, Inv_frame, H | exact H].
Qed.

Lemma Inv_reachable (fs : list Frame) : Inv (game_loop fs initial_state).
Proof. apply Inv_game_loop, Inv_initial. Qed.

(** ** Resetting the game *)

Lemma restart_event (st : State) :
  phase st = GameOver ->
  handle_event st (KEYDOWN K_SPACE) =
  mkState Bird.init [] 0 false (running st) false (pipe_spawn_timer st).
Proof.
  intros H. apply phase_game_over_flags in H as [Hs Hg].
  unfold handle_event. cbv zeta. rewrite Hs, Hg. reflexivity.
Qed.

(** C1.  Pressing space in the game-over phase puts the bird back at its
    start with zero velocity, empties the pipes, zeroes the score and sets
    the phase to playing, but it leaves the spawn timer as it was.  Here the
    bird is dropped from the start: the game is over in the 27th frame with
    the timer at 27, and the restart keeps that 27 instead of 0. *)
Theorem restart_keeps_spawn_timer :
  let st := game_loop (free_fall 27) initial_state in
  let st' := handle_event st (KEYDOWN K_SPACE) in
  phase st = GameOver
  /\ pipe_spawn_timer st = 27
  /\ phase st' = Playing
  /\ score st' = 0
  /\ pipes st' = []
  /\ bird st' = Bird.init
  /\ Bird.rect (bird st') = Rect.mk 235 285 30 30
  /\ Bird.velocity (bird st') = 0%Q
  /\ pipe_spawn_timer st' = 27
  /\ pipe_spawn_timer st' <> 0.
Proof.
  vm_compute. repeat split; discriminate.
Qed.

(** ** Leaving the start screen *)

(** C10.  Space on the start screen only clears [start_screen]: the phase
    becomes playing, the bird is not made to jump, and the bird, the pipes,
    the score, the spawn timer and the other flags are untouched. *)
Theorem start_changes_only_phase (fs : list Frame) :
  let st := game_loop fs initial_state in
  phase st = StartScreen ->
  let st' := handle_event st (KEYDOWN K_SPACE) in
  phase st' = Playing
  /\ bird st' = bird st
  /\ pipes st' = pipes st
  /\ score st' = score st
  /\ pipe_spawn_timer st' = pipe_spawn_timer st
  /\ game_over st' = game_over st
  /\ running st' = running st.
Proof.
  intros st Hph st'.
  pose proof (Inv_reachable fs) as HI. fold st in HI.
  apply phase_start_flags in Hph.
  pose proof (inv_flags st HI Hph) as Hg.
  subst st'. unfold handle_event. cbv zeta. rewrite Hph. cbn [andb is_space].
  unfold phase. cbn. rewrite Hg. repeat split.
Qed.

Lemma start_changes_only_phase_witness :
  phase (game_loop [] initial_state) = StartScreen
  /\ phase (handle_event (game_loop [] initial_state) (KEYDOWN K_SPACE))
     = Playing.
Proof.
  split; [reflexivity |].
  apply (start_changes_only_phase []). reflexivity.
Defined.

(** ** The bird *)

(** *** Storing a float in a rectangle *)

Lemma Qnum_neg_comp (p q : Q) : (p == q)%Q -> (Qnum p <? 0) = (Qnum q <? 0).
Proof.
  destruct p as [a b], q as [c d]. unfold Qeq. cbn [Qnum Qden]. intros H.
  destruct (Z.ltb_spec a 0), (Z.ltb_spec c 0); try reflexivity; nia.
Qed.

Lemma Qnearest_comp (p q : Q) : (p == q)%Q -> Qnearest p = Qnearest q.
Proof.
  intros H. unfold Qnearest. rewrite (Qnum_neg_comp p q H).
  destruct (Qnum q <? 0).
  - f_equal. apply Qfloor_comp. rewrite H. reflexivity.
  - apply Qfloor_comp. rewrite H. reflexivity.
Qed.

(** The stored integer for a number of halves. *)
Lemma Qnearest_half (m : Z) :
  Qnearest (m # 2) = if m <? 0 then - ((1 - m) / 2) else (m + 1) / 2.
Proof.
  unfold Qnearest, Qfloor, Qplus, Qopp. cbn [Qnum Qden].
  change (Z.pos (2 * 2)) with 4.
  destruct (Z.ltb_spec m 0); [f_equal |]; Z.div_mod_to_equations; lia.
Qed.

(** Above minus one half the stored integer is not negative, and it is the
    floor of the number plus one half. *)
Lemma Qnearest_above (q : Q) :
  (- (1 # 2) < q)%Q -> Qnearest q = Qfloor (q + (1 # 2)) /\ 0 <= Qnearest q.
Proof.
  destruct q as [n d]. unfold Qlt, Qnearest, Qfloor, Qplus, Qopp.
  cbn [Qnum Qden]. intros H.
  rewrite !Pos2Z.inj_mul.
  destruct (Z.ltb_spec n 0).
  - assert (H1 : (- n * 2 + 1 * Z.pos d) / (Z.pos d * 2) = 0)
      by (apply Z.div_small; lia).
    assert (H2 : (n * 2 + 1 * Z.pos d) / (Z.pos d * 2) = 0)
      by (apply Z.div_small; lia).
    rewrite H1, H2. cbn. split; [reflexivity | lia].
  - split; [reflexivity |]. apply Z.div_pos; lia.
Qed.

(** From minus one half down the stored integer is negative. *)
Lemma Qnearest_below (q : Q) : (q <= - (1 # 2))%Q -> Qnearest q < 0.
Proof.
  destruct q as [n d]. unfold Qle, Qnearest, Qfloor, Qplus, Qopp.
  cbn [Qnum Qden]. intros H.
  rewrite !Pos2Z.inj_mul.
  replace (n <? 0) with true by (symmetry; apply Z.ltb_lt; lia).
  assert (1 <= (- n * 2 + 1 * Z.pos d) / (Z.pos d * 2))
    by (apply Z.div_le_lower_bound; lia).
  lia.
Qed.

Lemma Qfloor_shift (z : Z) (q : Q) : Qfloor (inject_Z z + q) = z + Qfloor q.
Proof.
  destruct q as [n d]. unfold Qfloor, Qplus, inject_Z. cbn [Qnum Qden].
  rewrite Pos.mul_1_l, Z.mul_1_r. apply Z.div_add_l. discriminate.
Qed.

(** [update], by the sum of the old top and the new velocity. *)
Lemma update_clamped (b : Bird.t) :
  (inject_Z (Rect.y (Bird.rect b)) + (Bird.velocity b + BIRD_GRAVITY)
   <= - (1 # 2))%Q ->
  Bird.update b = Bird.mk (Rect.set_y (Bird.rect b) 0) 0.
Proof.
  intros H. unfold Bird.update. cbv zeta.
  assert (Hneg : Qnearest (inject_Z (Rect.y (Bird.rect b))
                           + Qred (Bird.velocity b + BIRD_GRAVITY)) < 0).
  { apply Qnearest_below. rewrite Qred_correct. exact H. }
  unfold Rect.top, Rect.set_y at 1. cbn [Rect.y].
  apply Z.ltb_lt in Hneg. rewrite Hneg. reflexivity.
Qed.

Lemma update_moved (b : Bird.t) :
  (- (1 # 2)
   < inject_Z (Rect.y (Bird.rect b)) + (Bird.velocity b + BIRD_GRAVITY))%Q ->
  Bird.update b
  = Bird.mk
      (Rect.set_y (Bird.rect b)
         (Rect.y (Bird.rect b)
          + Qfloor (Bird.velocity b + BIRD_GRAVITY + (1 # 2))))
      (Qred (Bird.velocity b + BIRD_GRAVITY))
  /\ 0 <= Rect.y (Bird.rect b)
          + Qfloor (Bird.velocity b + BIRD_GRAVITY + (1 # 2)).
Proof.
  intros H. unfold Bird.update. cbv zeta.
  assert (Heq : Qnearest (inject_Z (Rect.y (Bird.rect b))
                          + Qred (Bird.velocity b + BIRD_GRAVITY))
                = Qnearest (inject_Z (Rect.y (Bird.rect b))
                            + (Bird.velocity b + BIRD_GRAVITY))).
  { apply Qnearest_comp. rewrite Qred_correct. reflexivity. }
  destruct (Qnearest_above _ H) as [Hfl Hpos].
  assert (Hsh : Qfloor (inject_Z (Rect.y (Bird.rect b))
                        + (Bird.velocity b + BIRD_GRAVITY) + (1 # 2))
                = Rect.y (Bird.rect b)
                  + Qfloor (Bird.velocity b + BIRD_GRAVITY + (1 # 2))).
  { rewrite <- Qfloor_shift. apply Qfloor_comp. ring. }
  rewrite Heq, Hfl, Hsh in *.
  unfold Rect.top, Rect.set_y at 1. cbn [Rect.y].
  replace (_ <? 0) with false by (symmetry; apply Z.ltb_ge; exact Hpos).
  split; [reflexivity | exact Hpos].
Qed.

Lemma half_sum (y k : Z) (v : Q) :
  (v == k # 2)%Q ->
  (inject_Z y + (v + BIRD_GRAVITY) == (2 * y + k + 1) # 2)%Q.
Proof.
  intros H. rewrite H. unfold BIRD_GRAVITY, Qeq, Qplus, inject_Z.
  cbn [Qnum Qden]. rewrite !Pos2Z.inj_mul. lia.
Qed.

Lemma half_sign (m : Z) : (m # 2 <= - (1 # 2))%Q <-> (m # 2 < 0)%Q.
Proof. unfold Qle, Qlt. cbn [Qnum Qden Qopp]. lia. Qed.

(** C9.  [update] never moves the bird sideways.  Take the sum of the old
    top and the velocity after gravity.  The top edge that would result is
    the integer nearest to that sum, and it is below 0 exactly when the sum
    is at most minus one half: then the top becomes 0 and the velocity 0.
    Otherwise the velocity is the old one plus gravity, and the new top is
    not negative and within half a pixel of the sum.  For a velocity that
    is a whole number of half pixels, as every velocity of the game is,
    the first case is exactly the case of a negative sum. *)
Theorem bird_update_spec (b : Bird.t) :
  let sum :=
    (inject_Z (Rect.top (Bird.rect b))
     + (Bird.velocity b + BIRD_GRAVITY))%Q in
  let b' := Bird.update b in
  Rect.x (Bird.rect b') = Rect.x (Bird.rect b)
  /\ Rect.w (Bird.rect b') = Rect.w (Bird.rect b)
  /\ Rect.h (Bird.rect b') = Rect.h (Bird.rect b)
  /\ (if Qle_bool sum (- (1 # 2))
      then Rect.top (Bird.rect b') = 0 /\ Bird.velocity b' = 0%Q
      else (Bird.velocity b' == Bird.velocity b + BIRD_GRAVITY)%Q
           /\ 0 <= Rect.top (Bird.rect b')
           /\ (inject_Z (Rect.top (Bird.rect b')) - (1 # 2) <= sum)%Q
           /\ (sum < inject_Z (Rect.top (Bird.rect b')) + (1 # 2))%Q)
  /\ (forall k : Z,
        (Bird.velocity b == k # 2)%Q ->
        Qle_bool sum (- (1 # 2)) = true <-> (sum < 0)%Q).
Proof.
  intros sum b'. subst b'.
  split; [apply bird_update_x |].
  split; [apply bird_update_w |].
  split; [apply bird_update_h |].
  split.
  - destruct (Qle_bool sum (- (1 # 2))) eqn:E.
    + apply Qle_bool_iff in E. rewrite (update_clamped b E).
      split; reflexivity.
    + assert (Hgt : (- (1 # 2) < sum)%Q).
      { apply Qnot_le_lt. intros Hle. apply Qle_bool_iff in Hle.
        rewrite Hle in E. discriminate. }
      destruct (update_moved b Hgt) as [Hup Hpos]. rewrite Hup.
      cbn [Bird.rect Bird.velocity].
      unfold Rect.top, Rect.set_y. cbn [Rect.y].
      split; [apply Qred_correct |]. split; [exact Hpos |].
      rewrite <- Qfloor_shift.
      pose proof (Qfloor_le (inject_Z (Rect.y (Bird.rect b))
                             + (Bird.velocity b + BIRD_GRAVITY + (1 # 2))))
        as Hlo.
      pose proof (Qlt_floor (inject_Z (Rect.y (Bird.rect b))
                             + (Bird.velocity b + BIRD_GRAVITY + (1 # 2))))
        as Hhi.
      rewrite inject_Z_plus in Hhi. change (inject_Z 1) with 1%Q in Hhi.
      unfold sum, Rect.top. split; lra.
  - intros k Hk. rewrite Qle_bool_iff.
    unfold sum, Rect.top. rewrite (half_sum _ k _ Hk). apply half_sign.
Qed.

Lemma bird_update_spec_witness :
  let b := Bird.jump (Bird.mk (Rect.mk 235 7 30 30) 0) in
  (Bird.velocity b == -16 # 2)%Q
  /\ (inject_Z (Rect.top (Bird.rect b)) + (Bird.velocity b + BIRD_GRAVITY)
      < 0)%Q
  /\ Rect.top (Bird.rect (Bird.update b)) = 0
  /\ Bird.velocity (Bird.update b) = 0%Q.
Proof.
  cbv zeta.
  assert (Hv : (Bird.velocity (Bird.jump (Bird.mk (Rect.mk 235 7 30 30) 0))
                == -16 # 2)%Q) by reflexivity.
  pose proof (bird_update_spec (Bird.jump (Bird.mk (Rect.mk 235 7 30 30) 0)))
    as (_ & _ & _ & Hif & Hhalf).
  cbv zeta in Hif, Hhalf.
  assert (Hb : Qle_bool
                 (inject_Z (Rect.top (Bird.rect
                    (Bird.jump (Bird.mk (Rect.mk 235 7 30 30) 0))))
                  + (Bird.velocity
                       (Bird.jump (Bird.mk (Rect.mk 235 7 30 30) 0))
                     + BIRD_GRAVITY))
                 (- (1 # 2)) = true) by reflexivity.
  rewrite Hb in Hif.
  split; [exact Hv |].
  split; [exact (proj1 (Hhalf (-16) Hv) Hb) | exact Hif].
Defined.

(** A jump close to the ceiling: the move would put the top at -5, so the
    bird is put back at 0 and stopped. *)
Example update_at_ceiling :
  Bird.update (Bird.mk (Rect.mk 235 3 30 30) BIRD_JUMP_STRENGTH)
  = Bird.mk (Rect.mk 235 0 30 30) 0.
Proof. reflexivity. Qed.

(** Rising at half a pixel per frame from the very top: 0 - 0.5 would be
    stored as -1, so the bird is stopped at the ceiling. *)
Example update_half_pixel_at_top :
  Bird.update (Bird.mk (Rect.mk 235 0 30 30) (-1))
  = Bird.mk (Rect.mk 235 0 30 30) 0.
Proof. reflexivity. Qed.

(** A jump from the start: 285 - 7.5 is stored as 278. *)
Example update_after_jump :
  Bird.update (Bird.jump Bird.init)
  = Bird.mk (Rect.mk 235 278 30 30) (-15 # 2).
Proof. reflexivity. Qed.

(** C3, as the scenario is written: one frame of gravity on a fresh bird
    gives velocity 0.5 and a vertical position half a pixel lower.  The
    second part fails, both for the rectangle's centre (the position the
    bird is created at) and for its top edge. *)
Lemma first_tick_fractional_position_fails :
  let b := Bird.update Bird.init in
  ~ ((Bird.velocity b == 1 # 2)%Q
     /\ (inject_Z (Rect.centery (Bird.rect b))
         == inject_Z (SCREEN_HEIGHT / 2) + (1 # 2))%Q)
  /\ ~ ((Bird.velocity b == 1 # 2)%Q
        /\ (inject_Z (Rect.y (Bird.rect b))
            == inject_Z (Rect.y (Bird.rect Bird.init)) + Bird.velocity b)%Q).
Proof.
  vm_compute. split; intros [_ H]; discriminate H.
Qed.

(** C3, amended.  A fresh bird is centred on (width/4, height/2) with
    velocity 0.  After one [update] its velocity is 0.5 and it is one whole
    pixel lower: 285 + 0.5 is stored as 286, so the centre is at
    height/2 + 1. *)
Theorem first_tick_moves_one_pixel :
  Rect.centerx (Bird.rect Bird.init) = SCREEN_WIDTH / 4
  /\ Rect.centery (Bird.rect Bird.init) = SCREEN_HEIGHT / 2
  /\ Bird.velocity Bird.init = 0%Q
  /\ Bird.velocity (Bird.update Bird.init) = (1 # 2)%Q
  /\ Rect.top (Bird.rect (Bird.update Bird.init))
     = Rect.top (Bird.rect Bird.init) + 1
  /\ Rect.centery (Bird.rect (Bird.update Bird.init)) = SCREEN_HEIGHT / 2 + 1
  /\ Rect.centerx (Bird.rect (Bird.update Bird.init)) = SCREEN_WIDTH / 4.
Proof.
  vm_compute. repeat split.
Qed.

(** ** A pipe on its own *)

Lemma updates_x (n : nat) (p : Pipe.t) :
  Pipe.x (updates n p) = Pipe.x p - PIPE_SPEED * Z.of_nat n.
Proof.
  unfold updates. induction n as [|n IH].
  - cbn. lia.
  - rewrite Nat.iter_succ. cbn [Pipe.update Pipe.x]. rewrite IH. lia.
Qed.

Lemma updates_off_screen (n : nat) (p : Pipe.t) :
  Pipe.off_screen (updates n p) = true <->
  Pipe.x p + PIPE_WIDTH < PIPE_SPEED * Z.of_nat n.
Proof.
  unfold Pipe.off_screen. rewrite Z.ltb_lt, updates_x. lia.
Qed.

(** C4, as the scenario is written: a pipe spawned at x = 1000 is at
    x = -2 after 334 updates and is then off screen.  It is at -2, but its
    right edge is still at 48, so it is not off screen. *)
Lemma off_screen_after_334_fails :
  ~ (Pipe.x (updates 334 (Pipe.init 1000 200)) = -2
     /\ Pipe.off_screen (updates 334 (Pipe.init 1000 200)) = true).
Proof.
  vm_compute. intros [_ H]. discriminate H.
Qed.

(** C4, amended.  A pipe spawned at x = 1000 moves 3 to the left per
    update; after 334 updates it is at x = -2 and still on screen, and it
    is off screen exactly from the 351st update on, when x = -53. *)
Theorem off_screen_after_351 (hgt : Z) (n : nat) :
  PIPE_SPEED = 3
  /\ Pipe.x (updates 334 (Pipe.init 1000 hgt)) = -2
  /\ Pipe.off_screen (updates 334 (Pipe.init 1000 hgt)) = false
  /\ Pipe.x (updates 351 (Pipe.init 1000 hgt)) = -53
  /\ (Pipe.off_screen (updates n (Pipe.init 1000 hgt)) = true
      <-> (351 <= n)%nat).
Proof.
  split; [reflexivity |].
  split; [rewrite updates_x; reflexivity |].
  split.
  - apply not_true_is_false. rewrite updates_off_screen. cbn. lia.
  - split; [rewrite updates_x; reflexivity |].
    rewrite updates_off_screen. cbn [Pipe.init Pipe.x].
    unfold PIPE_WIDTH, PIPE_SPEED. lia.
Qed.

(** ** Hitting the ground *)

(** C7.  In a frame of the playing phase in which the bird's bottom edge,
    after its update, is at or below the ground line, the game is over and
    the bottom edge sits exactly on the ground line. *)
Theorem ground_collision (raw : Z) (st : State) :
  phase st = Playing ->
  Rect.bottom (Bird.rect (Bird.update (bird st)))
    >= SCREEN_HEIGHT - GROUND_HEIGHT ->
  phase (game_logic raw st) = GameOver
  /\ Rect.bottom (Bird.rect (bird (game_logic raw st)))
     = SCREEN_HEIGHT - GROUND_HEIGHT.
Proof.
  intros Hph Hb.
  rewrite (game_logic_playing raw st Hph). cbv zeta.
  apply phase_playing_flags in Hph as [Hs Hg].
  unfold ground_check.
  replace (Rect.bottom (Bird.rect (Bird.update (bird st)))
           >=? SCREEN_HEIGHT - GROUND_HEIGHT) with true
    by (symmetry; apply Z.geb_le; lia).
  cbn [fst snd]. split.
  - apply phase_game_over_flags. cbn [start_screen game_over].
    split; [exact Hs | apply pipe_check_true].
  - cbn [bird Bird.rect]. unfold Rect.bottom, Rect.set_bottom, Rect.set_y.
    cbn [Rect.y Rect.h]. lia.
Qed.

Lemma ground_collision_witness :
  let st := game_loop (free_fall 25) initial_state in
  phase st = Playing
  /\ phase (game_logic 0 st) = GameOver
  /\ Rect.bottom (Bird.rect (bird (game_logic 0 st))) = 500.
Proof.
  split; [reflexivity |].
  apply (ground_collision 0 (game_loop (free_fall 25) initial_state)).
  - reflexivity.
  - vm_compute. discriminate.
Defined.

(** ** Spawning *)

(** C8.  Every pipe in the stream has its gap top inside
    [100, SCREEN_HEIGHT - GROUND_HEIGHT - PIPE_GAP - 100], and so both of
    its rectangles have a positive height. *)
Theorem spawned_gap_in_range (fs : list Frame) (p : Pipe.t) :
  In p (pipes (game_loop fs initial_state)) ->
  100 <= Pipe.height p <= SCREEN_HEIGHT - GROUND_HEIGHT - PIPE_GAP - 100
  /\ Rect.h (Pipe.top_rect p) = Pipe.height p
  /\ Rect.h (Pipe.bottom_rect p)
     = SCREEN_HEIGHT - GROUND_HEIGHT - (Pipe.height p + PIPE_GAP)
  /\ 0 < Rect.h (Pipe.top_rect p)
  /\ 0 < Rect.h (Pipe.bottom_rect p).
Proof.
  intros Hin.
  pose proof (inv_pipes _ (Inv_reachable fs)) as Hall.
  rewrite Forall_forall in Hall.
  destruct (Hall p Hin) as (Ht & Hb & Hh).
  rewrite Ht, Hb. cbn [Rect.h].
  unfold SCREEN_HEIGHT, GROUND_HEIGHT, PIPE_GAP in *. lia.
Qed.

Lemma spawned_gap_in_range_witness :
  let p := Pipe.mk 976 137 false (Rect.mk 976 0 50 137)
             (Rect.mk 976 287 50 213) in
  In p (pipes (game_loop (firstn 97 (bobbing 37 4)) initial_state))
  /\ 100 <= Pipe.height p <= 250
  /\ 0 < Rect.h (Pipe.top_rect p)
  /\ 0 < Rect.h (Pipe.bottom_rect p).
Proof.
  assert (Hin : In (Pipe.mk 976 137 false (Rect.mk 976 0 50 137)
                      (Rect.mk 976 287 50 213))
                   (pipes (game_loop (firstn 97 (bobbing 37 4)) initial_state))).
  { vm_compute. left. reflexivity. }
  split; [exact Hin |].
  pose proof (spawned_gap_in_range (firstn 97 (bobbing 37 4)) _ Hin) as (H1 & _ & _ & H2 & H3).
  split; [exact H1 | split; [exact H2 | exact H3]].
Defined.

(** ** Hitting a pipe *)

Lemma hits_pipe_strict (b : Bird.t) (p : Pipe.t) :
  0 < Rect.w (Bird.rect b) -> 0 < Rect.h (Bird.rect b) -> wf_pipe p ->
  hits_pipe b p = true <->
  overlap_strict (Bird.rect b) (Pipe.top_rect p)
  \/ overlap_strict (Bird.rect b) (Pipe.bottom_rect p).
Proof.
  intros Hw Hh (Ht & Hb & Hrange).
  assert (Htop : 0 < Rect.w (Pipe.top_rect p) /\ 0 < Rect.h (Pipe.top_rect p)).
  { rewrite Ht. cbn [Rect.w Rect.h]. unfold PIPE_WIDTH. lia. }
  assert (Hbot : 0 < Rect.w (Pipe.bottom_rect p)
                 /\ 0 < Rect.h (Pipe.bottom_rect p)).
  { rewrite Hb. cbn [Rect.w Rect.h].
    unfold PIPE_WIDTH, SCREEN_HEIGHT, GROUND_HEIGHT, PIPE_GAP in *. lia. }
  unfold hits_pipe. rewrite orb_true_iff.
  rewrite (colliderect_strict _ (Pipe.top_rect p)) by tauto.
  rewrite (colliderect_strict _ (Pipe.bottom_rect p)) by tauto.
  reflexivity.
Qed.

(** C2, as it is written: the frame ends in game over exactly when the
    bird's rectangle and a barrier overlap on both axes, touching edges
    included.  After 334 frames of bobbing the first pipe, drawn with gap
    top 100, is at x = 265 and the bird's rectangle is (235, 266, 30, 30):
    the bird's right edge is the left edge of the bottom barrier and the
    two share the rows 266..296, yet the game goes on. *)
Lemma touching_edges_do_not_collide :
  let st0 := game_loop (firstn 333 (bobbing 0 12)) initial_state in
  let st := handle_events st0 (events (idle 0)) in
  let st' := frame (idle 0) st0 in
  let p := Pipe.mk 265 100 false (Rect.mk 265 0 50 100)
             (Rect.mk 265 250 50 250) in
  phase st = Playing
  /\ In p (pipes st')
  /\ Bird.rect (bird st') = Rect.mk 235 266 30 30
  /\ Rect.right (Bird.rect (bird st')) = Rect.left (Pipe.bottom_rect p)
  /\ ~ (phase st' = GameOver
        <-> overlap_touching (Bird.rect (bird st')) (Pipe.bottom_rect p)).
Proof.
  cbv zeta.
  split; [vm_compute; reflexivity |].
  split; [vm_compute; left; reflexivity |].
  split; [vm_compute; reflexivity |].
  split; [vm_compute; reflexivity |].
  intros [_ H].
  assert (Hph : phase (frame (idle 0)
                  (game_loop (firstn 333 (bobbing 0 12)) initial_state))
                = Playing) by (vm_compute; reflexivity).
  rewrite Hph in H.
  assert (Hgo : Playing = GameOver); [| discriminate Hgo].
  apply H. vm_compute. repeat split; discriminate.
Qed.

(** C2, amended.  Take any frame of the loop whose game logic runs, that
    is, the phase is playing once the frame's events are handled.  The
    frame ends in game over exactly when the bird reached the ground line
    or its rectangle overlaps the top or the bottom rectangle of a pipe of
    the stream on both axes, where the comparisons are strict: rectangles
    that only touch do not collide. *)
Theorem collision_iff_strict_overlap (fs : list Frame) (f : Frame) :
  let st := handle_events (game_loop fs initial_state) (events f) in
  let st' := frame f (game_loop fs initial_state) in
  phase st = Playing ->
  (phase st' = GameOver <->
   Rect.bottom (Bird.rect (Bird.update (bird st)))
     >= SCREEN_HEIGHT - GROUND_HEIGHT
   \/ exists p, In p (pipes st')
        /\ (overlap_strict (Bird.rect (bird st')) (Pipe.top_rect p)
            \/ overlap_strict (Bird.rect (bird st')) (Pipe.bottom_rect p))).
Proof.
  intros st st' Hph.
  assert (Hst' : st' = game_logic (entropy f) st) by reflexivity.
  assert (HI : Inv st) by apply Inv_handle_events, Inv_reachable.
  assert (HI' : Inv st') by (rewrite Hst'; apply Inv_game_logic, HI).
  assert (Hhit : forall p, In p (pipes st') ->
            (hits_pipe (bird st') p = true <->
             overlap_strict (Bird.rect (bird st')) (Pipe.top_rect p)
             \/ overlap_strict (Bird.rect (bird st')) (Pipe.bottom_rect p))).
  { intros p Hin. apply hits_pipe_strict.
    - rewrite (inv_bird_w _ HI'). lia.
    - rewrite (inv_bird_h _ HI'). lia.
    - pose proof (inv_pipes _ HI') as Hall.
      rewrite Forall_forall in Hall. apply Hall, Hin. }
  assert (Hgo : game_over st' = true <->
            Rect.bottom (Bird.rect (Bird.update (bird st)))
              >= SCREEN_HEIGHT - GROUND_HEIGHT
            \/ exists p, In p (pipes st') /\ hits_pipe (bird st') p = true).
  { rewrite Hst'. rewrite (game_logic_playing (entropy f) st Hph). cbv zeta.
    cbn [game_over pipes bird]. rewrite pipe_check_spec.
    apply phase_playing_flags in Hph as [Hs Hg]. rewrite Hg.
    unfold ground_check.
    destruct (Rect.bottom (Bird.rect (Bird.update (bird st)))
              >=? SCREEN_HEIGHT - GROUND_HEIGHT) eqn:E; cbn [fst snd].
    - apply Z.geb_le in E. split; intros _; left; [lia | reflexivity].
    - assert (~ Rect.bottom (Bird.rect (Bird.update (bird st)))
                >= SCREEN_HEIGHT - GROUND_HEIGHT).
      { intros Hge. apply Z.ge_le in Hge. apply Z.geb_le in Hge.
        rewrite Hge in E. discriminate. }
      split; (intros [Hl | Hr]; [| right; exact Hr]).
      + discriminate.
      + contradiction. }
  assert (Hs' : start_screen st' = false).
  { rewrite Hst'. rewrite (game_logic_playing (entropy f) st Hph). cbv zeta.
    cbn [start_screen]. apply phase_playing_flags in Hph. tauto. }
  rewrite phase_game_over_flags, Hgo.
  split.
  - intros [_ [Hground | (p & Hin & Hp)]]; [left; exact Hground |].
    right. exists p. split; [exact Hin | apply Hhit; assumption].
  - intros H. split; [exact Hs' |].
    destruct H as [Hground | (p & Hin & Hp)]; [left; exact Hground |].
    right. exists p. split; [exact Hin | apply Hhit; assumption].
Qed.

Lemma collision_iff_strict_overlap_witness :
  let st0 := game_loop (firstn 334 (bobbing 0 12)) initial_state in
  let f := press 0 in
  let st := handle_events st0 (events f) in
  let st' := frame f st0 in
  phase st = Playing
  /\ Bird.velocity (bird st) = BIRD_JUMP_STRENGTH
  /\ phase st' = GameOver
  /\ (Rect.bottom (Bird.rect (Bird.update (bird st))) >= 500
      \/ exists p, In p (pipes st')
           /\ (overlap_strict (Bird.rect (bird st')) (Pipe.top_rect p)
               \/ overlap_strict (Bird.rect (bird st')) (Pipe.bottom_rect p))).
Proof.
  cbv zeta.
  assert (Hph : phase (handle_events
                         (game_loop (firstn 334 (bobbing 0 12)) initial_state)
                         (events (press 0)))
                = Playing) by (vm_compute; reflexivity).
  assert (Hgo : phase (frame (press 0)
                         (game_loop (firstn 334 (bobbing 0 12)) initial_state))
                = GameOver) by (vm_compute; reflexivity).
  split; [exact Hph |].
  split; [vm_compute; reflexivity |].
  split; [exact Hgo |].
  apply (collision_iff_strict_overlap (firstn 334 (bobbing 0 12)) (press 0) Hph).
  exact Hgo.
Defined.

(** ** The pipe loop, one pipe at a time *)

Lemma pipe_body_scored (bx sc : Z) (p : Pipe.t) :
  Pipe.passed p = true ->
  pipe_body bx p sc
  = (Pipe.update p, negb (Pipe.off_screen (Pipe.update p)), sc).
Proof.
  intros H. unfold pipe_body. cbv zeta. cbn [Pipe.update Pipe.passed].
  rewrite H. reflexivity.
Qed.

Lemma pipe_body_scores (bx sc : Z) (p : Pipe.t) :
  Pipe.passed p = false ->
  Pipe.x (Pipe.update p) + PIPE_WIDTH < bx ->
  pipe_body bx p sc
  = (Pipe.set_passed (Pipe.update p) true,
     negb (Pipe.off_screen (Pipe.update p)), sc + 1).
Proof.
  intros H Hlt. unfold pipe_body. cbv zeta.
  replace (Pipe.passed (Pipe.update p)) with false by (symmetry; exact H).
  apply Z.ltb_lt in Hlt. rewrite Hlt. reflexivity.
Qed.

Lemma pipe_body_waits (bx sc : Z) (p : Pipe.t) :
  Pipe.passed p = false ->
  bx <= Pipe.x (Pipe.update p) + PIPE_WIDTH ->
  pipe_body bx p sc
  = (Pipe.update p, negb (Pipe.off_screen (Pipe.update p)), sc).
Proof.
  intros H Hge. unfold pipe_body. cbv zeta.
  replace (Pipe.passed (Pipe.update p)) with false by (symmetry; exact H).
  apply Z.ltb_ge in Hge. rewrite Hge. reflexivity.
Qed.






(** The score gained in one pass of the whole loop is the number of pipes
    whose flag the pass sets. *)
Lemma update_pipes_gain (bx : Z) (ps : list Pipe.t) :
  forall sc,
    snd (update_pipes bx ps sc) =
    sc + Z.of_nat (length (filter
           (fun q => negb (Pipe.passed q)
                     && Pipe.passed (fst (fst (pipe_body bx q 0)))) ps)).
Proof.
  induction ps as [|p rest IH]; intros sc.
  - cbn. lia.
  - rewrite update_pipes_cons. cbv zeta. cbn [snd filter].
    rewrite IH.
    destruct (Pipe.passed p) eqn:E.
    + rewrite (pipe_body_scored bx sc p E), (pipe_body_scored bx 0 p E).
      cbn [fst snd negb andb]. lia.
    + destruct (Z_lt_le_dec (Pipe.x (Pipe.update p) + PIPE_WIDTH) bx)
        as [Hlt | Hge].
      * rewrite (pipe_body_scores bx sc p E Hlt),
          (pipe_body_scores bx 0 p E Hlt).
        cbn [fst snd negb andb Pipe.set_passed Pipe.passed length].
        lia.
      * rewrite (pipe_body_waits bx sc p E Hge),
          (pipe_body_waits bx 0 p E Hge).
        cbn [fst snd negb andb].
        replace (Pipe.passed (Pipe.update p)) with false
          by (symmetry; exact E).
        lia.
Qed.

Lemma bird_x_fixed (fs : list Frame) :
  Rect.x (Bird.rect (bird (game_loop fs initial_state))) = 235.
Proof. apply inv_bird_x, Inv_reachable. Qed.



(** ** The score *)

Lemma count_passed_cons (p : Pipe.t) (ps : list Pipe.t) :
  count_passed (p :: ps)
  = (if Pipe.passed p then 1 else 0) + count_passed ps.
Proof.
  unfold count_passed. cbn [filter]. destruct (Pipe.passed p); cbn [length]; lia.
Qed.

Lemma count_retired_cons (p : Pipe.t) (ps : list Pipe.t) :
  count_retired (p :: ps)
  = (if Pipe.off_screen (Pipe.update p) then 1 else 0) + count_retired ps.
Proof.
  unfold count_retired. cbn [filter].
  destruct (Pipe.off_screen (Pipe.update p)); cbn [length]; lia.
Qed.

Lemma count_retired_nonneg (ps : list Pipe.t) : 0 <= count_retired ps.
Proof. unfold count_retired. lia. Qed.

Lemma count_passed_app (ps qs : list Pipe.t) :
  count_passed (ps ++ qs) = count_passed ps + count_passed qs.
Proof.
  unfold count_passed. rewrite filter_app, length_app. lia.
Qed.

Lemma count_passed_spawn (raw timer : Z) (ps : list Pipe.t) :
  count_passed (fst (spawn_pipes raw ps timer)) = count_passed ps.
Proof.
  unfold spawn_pipes. cbv zeta. destruct (_ >=? _); cbn [fst]; [| reflexivity].
  rewrite count_passed_app. cbn. lia.
Qed.

(** Every pipe the loop removes has its flag set by the end of the pass, so
    the score moves with the flags of the stream and the pipes retired. *)
Lemma update_pipes_score (bx : Z) (ps : list Pipe.t) :
  0 <= bx ->
  forall sc,
    snd (update_pipes bx ps sc) + count_passed ps
    = sc + count_passed (fst (update_pipes bx ps sc)) + count_retired ps.
Proof.
  intros Hbx. induction ps as [|p rest IH]; intros sc.
  - cbn. lia.
  - rewrite update_pipes_cons. cbv zeta. cbn [fst snd].
    rewrite count_passed_cons, count_retired_cons.
    assert (Hoff : Pipe.off_screen (Pipe.update p) = true ->
                   Pipe.x (Pipe.update p) + PIPE_WIDTH < bx).
    { unfold Pipe.off_screen. rewrite Z.ltb_lt. lia. }
    destruct (Pipe.passed p) eqn:E.
    + rewrite (pipe_body_scored bx sc p E). cbn [fst snd].
      specialize (IH sc).
      destruct (Pipe.off_screen (Pipe.update p)); cbn [negb].
      * lia.
      * rewrite count_passed_cons.
        replace (Pipe.passed (Pipe.update p)) with true by (symmetry; exact E).
        lia.
    + destruct (Z_lt_le_dec (Pipe.x (Pipe.update p) + PIPE_WIDTH) bx)
        as [Hlt | Hge].
      * rewrite (pipe_body_scores bx sc p E Hlt). cbn [fst snd].
        specialize (IH (sc + 1)).
        destruct (Pipe.off_screen (Pipe.update p)); cbn [negb].
        -- lia.
        -- rewrite count_passed_cons. cbn [Pipe.set_passed Pipe.passed]. lia.
      * rewrite (pipe_body_waits bx sc p E Hge). cbn [fst snd].
        specialize (IH sc).
        destruct (Pipe.off_screen (Pipe.update p)) eqn:Eoff; cbn [negb].
        -- specialize (Hoff eq_refl). lia.
        -- rewrite count_passed_cons.
           replace (Pipe.passed (Pipe.update p)) with false
             by (symmetry; exact E).
           lia.
Qed.

Lemma update_pipes_mono (bx : Z) (ps : list Pipe.t) (sc : Z) :
  sc <= snd (update_pipes bx ps sc).
Proof. rewrite update_pipes_gain. lia. Qed.

Lemma game_logic_score_mono (raw : Z) (st : State) :
  score st <= score (game_logic raw st).
Proof.
  destruct (phase st) eqn:Ep;
    try (rewrite game_logic_idle; [lia | rewrite Ep; discriminate]).
  rewrite (game_logic_playing raw st Ep). cbv zeta. cbn [score].
  apply update_pipes_mono.
Qed.

Lemma tallied_handle_event (st : State) (e : Event) (n : Z) :
  tallied st n ->
  tallied (handle_event st e) (if restarts st e then 0 else n).
Proof.
  intros (HI & Hn & Hsc).
  split; [apply Inv_handle_event, HI |].
  destruct e as [| [|] |]; unfold handle_event, restarts; cbv zeta;
    cbn [start_screen game_over is_space andb pipes score];
    rewrite ?andb_false_r, ?andb_true_r; try (split; assumption).
  destruct (start_screen st) eqn:Es; cbn [negb andb pipes score].
  - split; assumption.
  - destruct (game_over st) eqn:Eg; cbn [negb pipes score].
    + rewrite reset_game_eq. cbn [pipes score]. split; [lia | reflexivity].
    + split; assumption.
Qed.

Lemma tallied_handle_events (es : list Event) :
  forall st n,
    tallied st n ->
    tallied (handle_events st es) (retired_after_events st es n).
Proof.
  unfold handle_events.
  induction es as [|e es IH]; intros st n H;
    cbn [fold_left retired_after_events].
  - exact H.
  - apply IH, tallied_handle_event, H.
Qed.

Lemma tallied_game_logic (raw : Z) (st : State) (n : Z) :
  tallied st n ->
  tallied (game_logic raw st) (n + retired_by_logic raw st).
Proof.
  intros (HI & Hn & Hsc).
  split; [apply Inv_game_logic, HI |].
  unfold retired_by_logic.
  destruct (phase st) eqn:Ep.
  - apply phase_start_flags in Ep. rewrite game_logic_idle.
    + rewrite Ep. cbn [negb andb]. split; lia.
    + unfold phase. rewrite Ep. discriminate.
  - rewrite (game_logic_playing raw st Ep). cbv zeta. cbn [score pipes].
    apply phase_playing_flags in Ep as [Es Eg]. rewrite Es, Eg.
    cbn [negb andb].
    pose proof (count_retired_nonneg
                  (fst (spawn_pipes raw (pipes st) (pipe_spawn_timer st)))).
    split; [lia |].
    pose proof (update_pipes_score
                  (Rect.x (Bird.rect (Bird.update (bird st))))
                  (fst (spawn_pipes raw (pipes st) (pipe_spawn_timer st))))
      as Hup.
    rewrite bird_update_x, (inv_bird_x st HI) in *.
    specialize (Hup ltac:(lia) (score st)).
    rewrite count_passed_spawn in Hup. lia.
  - rewrite game_logic_idle by (rewrite Ep; discriminate).
    apply phase_game_over_flags in Ep as [Es Eg]. rewrite Es, Eg.
    cbn [negb andb]. split; lia.
Qed.

Lemma tallied_game_loop (fs : list Frame) :
  forall st n, tallied st n -> tallied (game_loop fs st) (retired fs st n).
Proof.
  induction fs as [|f fs IH]; intros st n H; cbn [game_loop retired].
  - exact H.
  - destruct (running st); [| exact H].
    apply IH. unfold frame.
    apply tallied_game_logic, tallied_handle_events, H.
Qed.

(** C5.  After any number of frames the score is the number of pipes
    whose flag is set, counting the pipes still in the stream and the
    pipes already retired from it in the current session: every pipe the
    loop retires carries the flag when it leaves.  The game logic of a
    frame never lowers the score. *)
Theorem score_counts_scored_and_retired
  (fs : list Frame) (raw : Z) (st : State)
  (es : list Event) (p : Pipe.t) (sc : Z) :
  score (game_loop fs initial_state)
  = count_passed (pipes (game_loop fs initial_state))
    + retired fs initial_state 0
  /\ 0 <= retired fs initial_state 0
  /\ score st <= score (game_logic raw st)
  /\ (Pipe.off_screen (Pipe.update p) = true ->
      Pipe.passed
        (fst (fst (pipe_body
                     (Rect.x (Bird.rect (Bird.update
                        (bird (handle_events (game_loop fs initial_state)
                                 es)))))
                     p sc)))
      = true).
Proof.
  assert (H0 : tallied initial_state 0).
  { split; [apply Inv_initial | split; [lia | reflexivity]]. }
  destruct (tallied_game_loop fs initial_state 0 H0) as (_ & Hn & Hsc).
  split; [exact Hsc |].
  split; [exact Hn |].
  split; [apply game_logic_score_mono |].
  intros Hoff.
  rewrite bird_update_x.
  rewrite (inv_bird_x _ (Inv_handle_events es _ (Inv_reachable fs))).
  unfold Pipe.off_screen in Hoff. apply Z.ltb_lt in Hoff.
  destruct (Pipe.passed p) eqn:E.
  - rewrite (pipe_body_scored 235 sc p E). cbn [fst]. exact E.
  - rewrite (pipe_body_scores 235 sc p E) by lia. reflexivity.
Qed.

Lemma score_counts_scored_and_retired_witness :
  let p := Pipe.init (-48) 200 in
  Pipe.off_screen (Pipe.update p) = true
  /\ Pipe.passed p = false
  /\ Pipe.passed
       (fst (fst (pipe_body
                    (Rect.x (Bird.rect (Bird.update
                       (bird (handle_events (game_loop [] initial_state)
                                [])))))
                    p 0)))
     = true.
Proof.
  cbv zeta.
  assert (Hoff : Pipe.off_screen (Pipe.update (Pipe.init (-48) 200)) = true)
    by reflexivity.
  split; [exact Hoff | split; [reflexivity |]].
  exact (proj2 (proj2 (proj2
           (score_counts_scored_and_retired [] 0 initial_state []
              (Pipe.init (-48) 200) 0))) Hoff).
Defined.

(** A long game: after 440 frames of bobbing the first pipe has been
    scored and retired, so the score is 1 while no pipe of the stream
    carries the flag. *)
Example retired_after_440_frames :
  retired (firstn 440 (bobbing 100 15)) initial_state 0 = 1
  /\ score (game_loop (firstn 440 (bobbing 100 15)) initial_state) = 1
  /\ count_passed
       (pipes (game_loop (firstn 440 (bobbing 100 15)) initial_state)) = 0
  /\ retired (firstn 439 (bobbing 100 15)) initial_state 0 = 0.
Proof. vm_compute. repeat split. Qed.

(** ** The stream of pipes *)

Lemma pipe_body_x (bx sc : Z) (p : Pipe.t) :
  Pipe.x (fst (fst (pipe_body bx p sc))) = Pipe.x p - PIPE_SPEED.
Proof.
  unfold pipe_body. cbv zeta. destruct (negb _ && _); reflexivity.
Qed.

Lemma pipe_body_keep (bx sc : Z) (p : Pipe.t) :
  snd (fst (pipe_body bx p sc)) = negb (Pipe.off_screen (Pipe.update p)).
Proof.
  unfold pipe_body. cbv zeta. destruct (negb _ && _); reflexivity.
Qed.

Lemma pipe_body_passed (bx sc : Z) (p : Pipe.t) :
  Pipe.passed (fst (fst (pipe_body bx p sc)))
  = Pipe.passed p || (Pipe.x p - PIPE_SPEED + PIPE_WIDTH <? bx).
Proof.
  destruct (Pipe.passed p) eqn:E.
  - rewrite (pipe_body_scored bx sc p E). cbn [fst orb]. exact E.
  - cbn [orb].
    destruct (Z_lt_le_dec (Pipe.x (Pipe.update p) + PIPE_WIDTH) bx)
      as [Hlt | Hge].
    + rewrite (pipe_body_scores bx sc p E Hlt). cbn [fst].
      symmetry. apply Z.ltb_lt. exact Hlt.
    + rewrite (pipe_body_waits bx sc p E Hge). cbn [fst].
      cbn [Pipe.update Pipe.passed]. rewrite E.
      symmetry. apply Z.ltb_ge. exact Hge.
Qed.

Lemma pipe_body_off_screen (bx sc : Z) (p : Pipe.t) :
  Pipe.off_screen (fst (fst (pipe_body bx p sc)))
  = Pipe.off_screen (Pipe.update p).
Proof.
  unfold Pipe.off_screen. rewrite pipe_body_x. reflexivity.
Qed.

(** What holds of every pipe before the loop and is carried over by the
    loop body holds of every pipe left in the stream. *)
Lemma update_pipes_Forall (P Q : Pipe.t -> Prop) (bx : Z) :
  (forall p sc, P p -> Q (fst (fst (pipe_body bx p sc)))) ->
  forall ps sc, Forall P ps -> Forall Q (fst (update_pipes bx ps sc)).
Proof.
  intros Hstep. induction ps as [|p rest IH]; intros sc H.
  - constructor.
  - inversion H as [|? ? Hp Hrest]; subst.
    rewrite update_pipes_cons. cbv zeta. cbn [fst].
    destruct (snd (fst (pipe_body bx p sc))).
    + constructor; [apply Hstep, Hp | apply IH, Hrest].
    + apply IH, Hrest.
Qed.

(** The loop leaves no off-screen pipe in the stream. *)
Lemma update_pipes_on_screen (bx : Z) (ps : list Pipe.t) :
  forall sc,
    Forall (fun p => Pipe.off_screen p = false) (fst (update_pipes bx ps sc)).
Proof.
  induction ps as [|p rest IH]; intros sc.
  - constructor.
  - rewrite update_pipes_cons. cbv zeta. cbn [fst].
    destruct (snd (fst (pipe_body bx p sc))) eqn:E.
    + constructor; [| apply IH].
      rewrite pipe_body_keep in E. rewrite pipe_body_off_screen.
      destruct (Pipe.off_screen (Pipe.update p)); [discriminate | reflexivity].
    + apply IH.
Qed.

(** When no pipe goes off screen, none is removed. *)
Lemma update_pipes_keeps_all (bx : Z) (ps : list Pipe.t) :
  forall sc,
    Forall (fun q => Pipe.off_screen (Pipe.update q) = false) ps ->
    length (fst (update_pipes bx ps sc)) = length ps.
Proof.
  induction ps as [|p rest IH]; intros sc H.
  - reflexivity.
  - inversion H as [|? ? Hp Hrest]; subst.
    rewrite update_pipes_cons. cbv zeta. cbn [fst].
    rewrite pipe_body_keep, Hp. cbn [negb length].
    f_equal. apply IH, Hrest.
Qed.

Lemma update_pipes_length (bx : Z) (ps : list Pipe.t) :
  forall sc, (length (fst (update_pipes bx ps sc)) <= length ps)%nat.
Proof.
  induction ps as [|p rest IH]; intros sc.
  - apply le_n.
  - rewrite update_pipes_cons. cbv zeta. cbn [fst].
    specialize (IH (snd (pipe_body bx p sc))).
    destruct (snd (fst (pipe_body bx p sc))); cbn [length]; lia.
Qed.

Lemma update_pipes_app (bx : Z) (ps qs : list Pipe.t) :
  forall sc,
    update_pipes bx (ps ++ qs) sc =
    (fst (update_pipes bx ps sc)
       ++ fst (update_pipes bx qs (snd (update_pipes bx ps sc))),
     snd (update_pipes bx qs (snd (update_pipes bx ps sc)))).
Proof.
  induction ps as [|p rest IH]; intros sc.
  - cbn [app update_pipes fst snd].
    destruct (update_pipes bx qs sc); reflexivity.
  - cbn [app]. rewrite !update_pipes_cons. cbv zeta. cbn [fst snd].
    rewrite IH. cbn [fst snd].
    destruct (snd (fst (pipe_body bx p sc))); reflexivity.
Qed.

(** *** Pipes one spacing apart *)

Lemma chain_bounds (ps : list Pipe.t) (lx : Z) :
  chain ps lx ->
  Forall (fun q => lx - pipe_spacing * Z.of_nat (length ps) < Pipe.x q <= lx)
    ps.
Proof.
  induction ps as [|p rest IH]; intros H.
  - constructor.
  - destruct H as [Hp Hrest]. specialize (IH Hrest).
    constructor.
    + cbn [length]. unfold pipe_spacing, PIPE_SPEED, pipe_spawn_interval in *.
      lia.
    + eapply Forall_impl; [| exact IH].
      intros q Hq. cbn beta in Hq. cbn [length].
      unfold pipe_spacing, PIPE_SPEED, pipe_spawn_interval in *. lia.
Qed.

Lemma chain_app_one (ps : list Pipe.t) (q : Pipe.t) (lx : Z) :
  chain ps lx -> Pipe.x q = lx + pipe_spacing ->
  chain (ps ++ [q]) (Pipe.x q).
Proof.
  intros H Hq. induction ps as [|p rest IH]; cbn [app chain].
  - split; [cbn [length]; lia | exact I].
  - destruct H as [Hp Hrest]. split; [| apply IH, Hrest].
    rewrite length_app. cbn [length]. rewrite Hp, Hq.
    unfold pipe_spacing. lia.
Qed.

Lemma chain_nth (ps : list Pipe.t) (lx : Z) :
  chain ps lx ->
  forall i p, nth_error ps i = Some p ->
    Pipe.x p
    = lx - pipe_spacing * (Z.of_nat (length ps) - 1 - Z.of_nat i).
Proof.
  induction ps as [|q rest IH]; intros H i p Hi.
  - destruct i; discriminate.
  - destruct H as [Hq Hrest]. destruct i as [|i]; cbn [nth_error] in Hi.
    + injection Hi as <-. rewrite Hq. cbn [length]. f_equal. f_equal. lia.
    + rewrite (IH Hrest i p Hi). cbn [length]. f_equal. f_equal. lia.
Qed.

(** The loop moves the whole chain [PIPE_SPEED] to the left: what it
    removes is a front part of the chain. *)
Lemma update_pipes_chain (bx : Z) (ps : list Pipe.t) :
  forall sc lx,
    chain ps lx -> chain (fst (update_pipes bx ps sc)) (lx - PIPE_SPEED).
Proof.
  induction ps as [|p rest IH]; intros sc lx H.
  - exact I.
  - destruct H as [Hp Hrest].
    rewrite update_pipes_cons. cbv zeta. cbn [fst].
    destruct (snd (fst (pipe_body bx p sc))) eqn:E; [| apply IH, Hrest].
    cbn [chain]. split; [| apply IH, Hrest].
    rewrite pipe_body_x, Hp.
    rewrite update_pipes_keeps_all; [lia |].
    rewrite pipe_body_keep in E.
    assert (Hon : Pipe.off_screen (Pipe.update p) = false)
      by (destruct (Pipe.off_screen (Pipe.update p)); [discriminate | reflexivity]).
    unfold Pipe.off_screen in Hon. apply Z.ltb_ge in Hon.
    cbn [Pipe.update Pipe.x] in Hon.
    pose proof (chain_bounds rest lx Hrest) as Hb.
    eapply Forall_impl; [| exact Hb].
    intros q Hq. cbn beta in Hq.
    unfold Pipe.off_screen. apply Z.ltb_ge. cbn [Pipe.update Pipe.x]. lia.
Qed.

(** ** The playing field, frame after frame *)

Lemma bird_update_top (b : Bird.t) :
  0 <= Rect.top (Bird.rect (Bird.update b)).
Proof.
  unfold Bird.update. cbv zeta.
  destruct (Rect.top _ <? 0) eqn:E; cbn [Bird.rect].
  - unfold Rect.top, Rect.set_top, Rect.set_y. cbn [Rect.y]. lia.
  - apply Z.ltb_ge in E. exact E.
Qed.

Lemma ground_check_cases (b : Bird.t) (go : bool) :
  (Rect.bottom (Bird.rect b) >= SCREEN_HEIGHT - GROUND_HEIGHT
   /\ ground_check b go
      = (Bird.mk (Rect.set_bottom (Bird.rect b) (SCREEN_HEIGHT - GROUND_HEIGHT))
           (Bird.velocity b), true))
  \/ (Rect.bottom (Bird.rect b) < SCREEN_HEIGHT - GROUND_HEIGHT
      /\ ground_check b go = (b, go)).
Proof.
  unfold ground_check.
  destruct (Rect.bottom (Bird.rect b) >=? SCREEN_HEIGHT - GROUND_HEIGHT) eqn:E.
  - left. apply Z.geb_le in E. split; [lia | reflexivity].
  - right. split; [| reflexivity].
    destruct (Z_lt_le_dec (Rect.bottom (Bird.rect b))
                (SCREEN_HEIGHT - GROUND_HEIGHT)) as [Hlt | Hge];
      [exact Hlt |].
    apply Z.geb_le in Hge. rewrite Hge in E. discriminate.
Qed.

Lemma set_bottom_bottom (r : Rect.t) (v : Z) :
  Rect.bottom (Rect.set_bottom r v) = v.
Proof.
  unfold Rect.bottom, Rect.set_bottom, Rect.set_y. cbn [Rect.y Rect.h]. lia.
Qed.

Lemma set_bottom_top (r : Rect.t) (v : Z) :
  Rect.top (Rect.set_bottom r v) = v - Rect.h r.
Proof. reflexivity. Qed.

(** The key handler, branch by branch. *)
Lemma handle_quit (st : State) :
  handle_event st QUIT
  = mkState (bird st) (pipes st) (score st) (game_over st) false
      (start_screen st) (pipe_spawn_timer st).
Proof. reflexivity. Qed.

Lemma handle_ignored (st : State) (e : Event) :
  is_quit e = false -> is_space_press e = false -> handle_event st e = st.
Proof.
  destruct e as [| [|] |]; cbn [is_quit is_space_press]; intros Hq Hs;
    try discriminate; unfold handle_event; cbv zeta;
    cbn [is_space]; rewrite ?andb_false_r; reflexivity.
Qed.

Lemma handle_space_start (st : State) :
  start_screen st = true ->
  handle_event st (KEYDOWN K_SPACE)
  = mkState (bird st) (pipes st) (score st) (game_over st) (running st)
      false (pipe_spawn_timer st).
Proof.
  intros H. unfold handle_event. cbv zeta. rewrite H. reflexivity.
Qed.

Lemma handle_space_jump (st : State) :
  start_screen st = false -> game_over st = false ->
  handle_event st (KEYDOWN K_SPACE)
  = mkState (Bird.jump (bird st)) (pipes st) (score st) (game_over st)
      (running st) (start_screen st) (pipe_spawn_timer st).
Proof.
  intros Hs Hg. unfold handle_event. cbv zeta. rewrite Hs, Hg. reflexivity.
Qed.

Lemma handle_space_restart (st : State) :
  start_screen st = false -> game_over st = true ->
  handle_event st (KEYDOWN K_SPACE)
  = mkState Bird.init [] 0 false (running st) false (pipe_spawn_timer st).
Proof.
  intros Hs Hg. unfold handle_event. cbv zeta. rewrite Hs, Hg. reflexivity.
Qed.

Lemma Course_initial : Course initial_state.
Proof.
  constructor.
  - exact Inv_initial.
  - vm_compute. discriminate.
  - vm_compute. discriminate.
  - vm_compute. split; [discriminate | reflexivity].
  - vm_compute. discriminate.
  - exact I.
  - constructor.
  - constructor.
  - intros _. split; [vm_compute; reflexivity | constructor].
  - intros H. discriminate H.
Qed.

Lemma Course_handle_event (st : State) (e : Event) :
  Course st -> Course (handle_event st e).
Proof.
  intros HC.
  pose proof (Inv_handle_event st e (course_inv st HC)) as HI'.
  destruct HC as [HI Htop Hbot Htim Hsc Hch Hon Hfl Hal Hde].
  destruct (is_quit e) eqn:Eq.
  { destruct e; try discriminate. rewrite handle_quit in *.
    constructor; assumption. }
  destruct (is_space_press e) eqn:Es.
  2: { rewrite (handle_ignored st e Eq Es).
       constructor; assumption. }
  destruct e as [| [|] |]; try discriminate.
  destruct (start_screen st) eqn:Ess.
  { rewrite (handle_space_start st Ess) in *.
    constructor; assumption. }
  destruct (game_over st) eqn:Eg.
  - rewrite (handle_space_restart st Ess Eg) in *.
    constructor; try assumption;
      cbn [bird pipes score game_over pipe_spawn_timer chain].
    + vm_compute. discriminate.
    + vm_compute. discriminate.
    + lia.
    + exact I.
    + constructor.
    + constructor.
    + intros _. split; [vm_compute; reflexivity | constructor].
    + discriminate.
  - rewrite (handle_space_jump st Ess Eg) in *.
    constructor; try assumption.
    + intros _. exact (Hal eq_refl).
    + cbn [game_over]. rewrite Eg. discriminate.
Qed.

Lemma spawn_pipes_cases (raw timer : Z) (ps : list Pipe.t) :
  (pipe_spawn_interval <= timer + 1
   /\ spawn_pipes raw ps timer
      = (ps ++ [Pipe.init SCREEN_WIDTH
                  (randint 100
                     (SCREEN_HEIGHT - GROUND_HEIGHT - PIPE_GAP - 100) raw)],
         0))
  \/ (timer + 1 < pipe_spawn_interval
      /\ spawn_pipes raw ps timer = (ps, timer + 1)).
Proof.
  unfold spawn_pipes. cbv zeta.
  destruct (timer + 1 >=? pipe_spawn_interval) eqn:E.
  - left. apply Z.geb_le in E. split; [exact E | reflexivity].
  - right. split; [| reflexivity].
    destruct (Z_lt_le_dec (timer + 1) pipe_spawn_interval) as [Hlt | Hge];
      [exact Hlt |].
    apply Z.geb_le in Hge. rewrite Hge in E. discriminate.
Qed.

(** After the spawn step the chain ends where a pipe just spawned would
    stand. *)
Lemma spawn_pipes_chain (raw timer : Z) (ps : list Pipe.t) :
  0 <= timer < pipe_spawn_interval ->
  chain ps (SCREEN_WIDTH - PIPE_SPEED - PIPE_SPEED * timer) ->
  0 <= snd (spawn_pipes raw ps timer) < pipe_spawn_interval
  /\ chain (fst (spawn_pipes raw ps timer))
       (SCREEN_WIDTH - PIPE_SPEED * snd (spawn_pipes raw ps timer)).
Proof.
  intros Ht Hch.
  destruct (spawn_pipes_cases raw timer ps) as [[Hge Hsp] | [Hlt Hsp]];
    rewrite Hsp; cbn [fst snd].
  - split; [unfold pipe_spawn_interval; lia |].
    assert (Htimer : timer = pipe_spawn_interval - 1) by lia.
    set (q := Pipe.init SCREEN_WIDTH _).
    replace (SCREEN_WIDTH - PIPE_SPEED * 0) with (Pipe.x q)
      by (cbn [q Pipe.init Pipe.x]; lia).
    apply (chain_app_one ps q _ Hch).
    cbn [q Pipe.init Pipe.x]. rewrite Htimer.
    unfold pipe_spacing, SCREEN_WIDTH, PIPE_SPEED, pipe_spawn_interval. lia.
  - split; [lia |].
    replace (SCREEN_WIDTH - PIPE_SPEED * (timer + 1))
      with (SCREEN_WIDTH - PIPE_SPEED - PIPE_SPEED * timer) by lia.
    exact Hch.
Qed.

Lemma spawn_pipes_flags (raw timer bx : Z) (ps : list Pipe.t) :
  bx <= SCREEN_WIDTH ->
  Forall (fun p => Pipe.passed p = (Pipe.x p + PIPE_WIDTH <? bx)) ps ->
  Forall (fun p => Pipe.passed p = (Pipe.x p + PIPE_WIDTH <? bx))
    (fst (spawn_pipes raw ps timer)).
Proof.
  intros Hbx H.
  destruct (spawn_pipes_cases raw timer ps) as [[_ Hsp] | [_ Hsp]];
    rewrite Hsp; cbn [fst]; [| exact H].
  apply Forall_app. split; [exact H |].
  constructor; [| constructor].
  cbn [Pipe.init Pipe.passed Pipe.x]. symmetry. apply Z.ltb_ge.
  unfold PIPE_WIDTH. lia.
Qed.

Lemma pipe_body_flag (bx sc : Z) (p : Pipe.t) :
  Pipe.passed p = (Pipe.x p + PIPE_WIDTH <? bx) ->
  Pipe.passed (fst (fst (pipe_body bx p sc)))
  = (Pipe.x (fst (fst (pipe_body bx p sc))) + PIPE_WIDTH <? bx).
Proof.
  intros H. rewrite pipe_body_passed, pipe_body_x, H.
  destruct (Z.ltb_spec (Pipe.x p + PIPE_WIDTH) bx) as [H1 | H1];
    destruct (Z.ltb_spec (Pipe.x p - PIPE_SPEED + PIPE_WIDTH) bx) as [H2 | H2];
    try reflexivity.
  unfold PIPE_SPEED in *. lia.
Qed.

Lemma pipe_check_false (b : Bird.t) (ps : list Pipe.t) (go : bool) :
  pipe_check b ps go = false ->
  go = false /\ Forall (fun p => hits_pipe b p = false) ps.
Proof.
  intros H. split.
  - destruct go; [| reflexivity].
    rewrite pipe_check_true in H. discriminate.
  - apply Forall_forall. intros p Hin.
    destruct (hits_pipe b p) eqn:E; [| reflexivity].
    assert (Ht : pipe_check b ps go = true).
    { apply pipe_check_spec. right. exists p. split; assumption. }
    rewrite Ht in H. discriminate.
Qed.

Lemma Course_game_logic (raw : Z) (st : State) :
  Course st -> Course (game_logic raw st).
Proof.
  intros HC.
  destruct (phase st) eqn:Ep;
    try (rewrite game_logic_idle; [exact HC | rewrite Ep; discriminate]).
  pose proof (Inv_game_logic raw st (course_inv st HC)) as HI'.
  destruct HC as [HI Htop Hbot Htim Hsc Hch Hon Hfl Hal Hde].
  destruct HI as [Hx Hw Hh Hwf Hflags].
  rewrite (game_logic_playing raw st Ep) in *. cbv zeta in *.
  apply phase_playing_flags in Ep as [Es Eg].
  assert (Hx1 : Rect.x (Bird.rect (Bird.update (bird st))) = 235)
    by (rewrite bird_update_x; exact Hx).
  assert (Hh1 : Rect.h (Bird.rect (Bird.update (bird st))) = 30)
    by (rewrite bird_update_h; exact Hh).
  pose proof (bird_update_top (bird st)) as Htop1.
  pose proof (spawn_pipes_chain raw (pipe_spawn_timer st) (pipes st) Htim Hch)
    as [Htim1 Hch1].
  assert (Hfl1 : Forall (fun p => Pipe.passed p
                                  = (Pipe.x p + PIPE_WIDTH <? 235))
                   (fst (spawn_pipes raw (pipes st) (pipe_spawn_timer st)))).
  { apply spawn_pipes_flags; [unfold SCREEN_WIDTH; lia |].
    rewrite Hx in Hfl. exact Hfl. }
  rewrite Hx1 in *.
  set (sp := spawn_pipes raw (pipes st) (pipe_spawn_timer st)) in *.
  set (mv := update_pipes 235 (fst sp) (score st)) in *.
  assert (Hgx : Rect.x (Bird.rect (fst (ground_check (Bird.update (bird st))
                                          (game_over st)))) = 235).
  { pose proof (ground_check_shape (Bird.update (bird st)) (game_over st))
      as (Gx & _). cbv zeta in Gx. rewrite Gx. exact Hx1. }
  assert (Hbird :
    0 <= Rect.top (Bird.rect (fst (ground_check (Bird.update (bird st))
                                     (game_over st))))
    /\ Rect.bottom (Bird.rect (fst (ground_check (Bird.update (bird st))
                                      (game_over st))))
       <= SCREEN_HEIGHT - GROUND_HEIGHT
    /\ (snd (ground_check (Bird.update (bird st)) (game_over st)) = false ->
        Rect.bottom (Bird.rect (fst (ground_check (Bird.update (bird st))
                                       (game_over st))))
        < SCREEN_HEIGHT - GROUND_HEIGHT)
    /\ (snd (ground_check (Bird.update (bird st)) (game_over st)) = true ->
        Rect.bottom (Bird.rect (fst (ground_check (Bird.update (bird st))
                                       (game_over st))))
        = SCREEN_HEIGHT - GROUND_HEIGHT)).
  { destruct (ground_check_cases (Bird.update (bird st)) (game_over st))
      as [[Hb Hgr] | [Hb Hgr]]; rewrite Hgr; cbn [fst snd Bird.rect].
    - rewrite set_bottom_bottom, set_bottom_top, Hh1.
      unfold SCREEN_HEIGHT, GROUND_HEIGHT.
      repeat split; try lia; intros; try lia; discriminate.
    - rewrite Eg. repeat split; try lia; intros; try lia; discriminate. }
  destruct Hbird as (Hb1 & Hb2 & Hb3 & Hb4).
  constructor; cbn [bird pipes score game_over pipe_spawn_timer].
  - exact HI'.
  - exact Hb1.
  - exact Hb2.
  - exact Htim1.
  - pose proof (update_pipes_mono 235 (fst sp) (score st)). fold mv in H. lia.
  - replace (SCREEN_WIDTH - PIPE_SPEED - PIPE_SPEED * snd sp)
      with (SCREEN_WIDTH - PIPE_SPEED * snd sp - PIPE_SPEED) by lia.
    apply update_pipes_chain, Hch1.
  - apply update_pipes_on_screen.
  - rewrite Hgx.
    apply (update_pipes_Forall
             (fun p => Pipe.passed p = (Pipe.x p + PIPE_WIDTH <? 235))
             (fun p => Pipe.passed p = (Pipe.x p + PIPE_WIDTH <? 235)));
      [| exact Hfl1].
    intros p sc Hp. apply pipe_body_flag, Hp.
  - intros Hgo. apply pipe_check_false in Hgo as [Hg1 Hno].
    split; [apply Hb3, Hg1 | exact Hno].
  - intros Hgo. apply pipe_check_spec in Hgo as [Hg1 | (p & Hin & Hp)].
    + left. apply Hb4, Hg1.
    + right. apply Exists_exists. exists p. split; assumption.
Qed.

Lemma Course_handle_events (es : list Event) :
  forall st, Course st -> Course (handle_events st es).
Proof.
  unfold handle_events.
  induction es as [|e es IH]; intros st H; cbn [fold_left].
  - exact H.
  - apply IH, Course_handle_event, H.
Qed.

Lemma Course_game_loop (fs : list Frame) :
  forall st, Course st -> Course (game_loop fs st).
Proof.
  induction fs as [|f fs IH]; intros st H; cbn [game_loop].
  - exact H.
  - destruct (running st); [| exact H].
    apply IH. unfold frame. apply Course_game_logic, Course_handle_events, H.
Qed.

Lemma Course_reachable (fs : list Frame) : Course (game_loop fs initial_state).
Proof. apply Course_game_loop, Course_initial. Qed.

(** ** Properties of every state the loop can reach *)

(** X1.  The bird never leaves its column or changes size, never rises
    above the top of the screen and never sinks below the ground line. *)
Theorem bird_stays_on_screen (fs : list Frame) :
  let r := Bird.rect (bird (game_loop fs initial_state)) in
  Rect.x r = SCREEN_WIDTH / 4 - 15
  /\ Rect.w r = 30 /\ Rect.h r = 30
  /\ 0 <= Rect.top r
  /\ Rect.bottom r <= SCREEN_HEIGHT - GROUND_HEIGHT.
Proof.
  pose proof (Course_reachable fs) as [[Hx Hw Hh _ _] Htop Hbot _ _ _ _ _ _ _].
  cbv zeta. repeat split; assumption.
Qed.

(** X2.  The spawn timer stays in 0..89 and the score is never
    negative. *)
Theorem counters_in_range (fs : list Frame) :
  let st := game_loop fs initial_state in
  0 <= pipe_spawn_timer st < pipe_spawn_interval /\ 0 <= score st.
Proof.
  pose proof (Course_reachable fs) as HC.
  split; [apply course_timer, HC | apply course_score, HC].
Qed.

(** X3.  The places of the pipes follow from the spawn timer alone: the
    last pipe of the stream is at [SCREEN_WIDTH - PIPE_SPEED * (timer + 1)]
    and each pipe stands 270 to the left of the next one.  No pipe of the
    stream is off screen. *)
Theorem pipes_evenly_spaced (fs : list Frame) (i : nat) (p : Pipe.t) :
  let st := game_loop fs initial_state in
  nth_error (pipes st) i = Some p ->
  Pipe.x p
  = SCREEN_WIDTH - PIPE_SPEED * (pipe_spawn_timer st + 1)
    - PIPE_SPEED * pipe_spawn_interval
      * (Z.of_nat (length (pipes st)) - 1 - Z.of_nat i)
  /\ Pipe.off_screen p = false
  /\ - PIPE_WIDTH <= Pipe.x p <= SCREEN_WIDTH - PIPE_SPEED.
Proof.
  intros st Hi.
  pose proof (Course_reachable fs) as HC. fold st in HC.
  pose proof (chain_nth _ _ (course_chain st HC) i p Hi) as Hx.
  pose proof (course_on_screen st HC) as Hon.
  rewrite Forall_forall in Hon.
  pose proof (Hon p (nth_error_In _ _ Hi)) as Hp.
  pose proof (course_timer st HC) as Ht.
  assert (Hlt : (i < length (pipes st))%nat).
  { apply nth_error_Some. rewrite Hi. discriminate. }
  split; [| split; [exact Hp |]].
  - rewrite Hx. unfold pipe_spacing. lia.
  - unfold Pipe.off_screen in Hp. apply Z.ltb_ge in Hp.
    rewrite Hx in *. unfold pipe_spacing, PIPE_SPEED, pipe_spawn_interval in *.
    nia.
Qed.

Lemma pipes_evenly_spaced_witness :
  let st := game_loop (firstn 449 (bobbing 100 15)) initial_state in
  let p := Pipe.mk 190 200 false (Rect.mk 190 0 50 200)
             (Rect.mk 190 350 50 150) in
  nth_error (pipes st) 0 = Some p
  /\ Pipe.x p
     = SCREEN_WIDTH - PIPE_SPEED * (pipe_spawn_timer st + 1)
       - PIPE_SPEED * pipe_spawn_interval
         * (Z.of_nat (length (pipes st)) - 1 - Z.of_nat 0)
  /\ Pipe.off_screen p = false.
Proof.
  cbv zeta.
  assert (Hi : nth_error (pipes (game_loop (firstn 449 (bobbing 100 15)) initial_state)) 0
               = Some (Pipe.mk 190 200 false (Rect.mk 190 0 50 200)
                         (Rect.mk 190 350 50 150)))
    by (vm_compute; reflexivity).
  split; [exact Hi |].
  pose proof (pipes_evenly_spaced (firstn 449 (bobbing 100 15)) 0 _ Hi) as (H1 & H2 & _).
  split; [exact H1 | exact H2].
Defined.

(** X4.  The stream never holds more than four pipes. *)
Theorem at_most_four_pipes (fs : list Frame) :
  (length (pipes (game_loop fs initial_state)) <= 4)%nat.
Proof.
  pose proof (Course_reachable fs) as HC.
  set (st := game_loop fs initial_state) in *.
  pose proof (course_chain st HC) as Hch.
  pose proof (course_on_screen st HC) as Hon.
  pose proof (course_timer st HC) as Ht.
  destruct (pipes st) as [|p rest]; [cbn; lia |].
  destruct Hch as [Hx _]. inversion Hon as [|? ? Hp _]; subst.
  unfold Pipe.off_screen in Hp. apply Z.ltb_ge in Hp.
  cbn [length].
  unfold pipe_spacing, SCREEN_WIDTH, PIPE_SPEED, PIPE_WIDTH,
    pipe_spawn_interval in *.
  lia.
Qed.

(** X5.  A pipe of the stream has its flag set exactly when its right edge
    is left of the bird's left edge. *)
Theorem flag_follows_position (fs : list Frame) (p : Pipe.t) :
  let st := game_loop fs initial_state in
  In p (pipes st) ->
  (Pipe.passed p = true
   <-> Pipe.x p + PIPE_WIDTH < Rect.x (Bird.rect (bird st))).
Proof.
  intros st Hin.
  pose proof (Course_reachable fs) as HC. fold st in HC.
  pose proof (course_flags st HC) as Hfl.
  rewrite Forall_forall in Hfl. rewrite (Hfl p Hin). apply Z.ltb_lt.
Qed.

Lemma flag_follows_position_witness :
  let st := game_loop (firstn 362 (bobbing 100 14)) initial_state in
  let p := Pipe.mk 181 200 true (Rect.mk 181 0 50 200)
             (Rect.mk 181 350 50 150) in
  In p (pipes st)
  /\ (Pipe.passed p = true
      <-> Pipe.x p + PIPE_WIDTH < Rect.x (Bird.rect (bird st))).
Proof.
  cbv zeta.
  assert (Hin : In (Pipe.mk 181 200 true (Rect.mk 181 0 50 200)
                      (Rect.mk 181 350 50 150))
                   (pipes (game_loop (firstn 362 (bobbing 100 14))
                             initial_state)))
    by (vm_compute; left; reflexivity).
  split; [exact Hin |].
  exact (flag_follows_position (firstn 362 (bobbing 100 14)) _ Hin).
Defined.

(** X6.  Every pipe of the stream keeps its two rectangles in step with
    its own position: both span the columns x .. x + PIPE_WIDTH, the top
    one the rows 0 .. height and the bottom one the rows
    height + PIPE_GAP .. ground line. *)
Theorem pipe_rects_follow_pipe (fs : list Frame) (p : Pipe.t) :
  In p (pipes (game_loop fs initial_state)) ->
  Rect.left (Pipe.top_rect p) = Pipe.x p
  /\ Rect.left (Pipe.bottom_rect p) = Pipe.x p
  /\ Rect.right (Pipe.top_rect p) = Pipe.x p + PIPE_WIDTH
  /\ Rect.right (Pipe.bottom_rect p) = Pipe.x p + PIPE_WIDTH
  /\ Rect.top (Pipe.top_rect p) = 0
  /\ Rect.bottom (Pipe.top_rect p) = Pipe.height p
  /\ Rect.top (Pipe.bottom_rect p) = Pipe.height p + PIPE_GAP
  /\ Rect.bottom (Pipe.bottom_rect p) = SCREEN_HEIGHT - GROUND_HEIGHT.
Proof.
  intros Hin.
  pose proof (inv_pipes _ (Inv_reachable fs)) as Hall.
  rewrite Forall_forall in Hall.
  destruct (Hall p Hin) as (Ht & Hb & _).
  rewrite Ht, Hb.
  unfold Rect.left, Rect.right, Rect.top, Rect.bottom.
  cbn [Rect.x Rect.y Rect.w Rect.h].
  repeat split; lia.
Qed.

Lemma pipe_rects_follow_pipe_witness :
  let p := Pipe.mk 181 200 true (Rect.mk 181 0 50 200)
             (Rect.mk 181 350 50 150) in
  In p (pipes (game_loop (firstn 362 (bobbing 100 14)) initial_state))
  /\ Rect.bottom (Pipe.top_rect p) = Pipe.height p
  /\ Rect.top (Pipe.bottom_rect p) = Pipe.height p + PIPE_GAP
  /\ Rect.bottom (Pipe.bottom_rect p) = SCREEN_HEIGHT - GROUND_HEIGHT.
Proof.
  cbv zeta.
  assert (Hin : In (Pipe.mk 181 200 true (Rect.mk 181 0 50 200)
                      (Rect.mk 181 350 50 150))
                   (pipes (game_loop (firstn 362 (bobbing 100 14))
                             initial_state)))
    by (vm_compute; left; reflexivity).
  split; [exact Hin |].
  pose proof (pipe_rects_follow_pipe (firstn 362 (bobbing 100 14)) _ Hin)
    as (_ & _ & _ & _ & _ & H1 & H2 & H3).
  split; [exact H1 | split; [exact H2 | exact H3]].
Defined.

(** ** Collisions *)

(** For a bird on screen and a pipe as the game builds it, the collision
    test says: they share columns and the bird is not inside the gap. *)
Lemma hits_pipe_gap (b : Bird.t) (p : Pipe.t) :
  0 < Rect.w (Bird.rect b) -> 0 < Rect.h (Bird.rect b) ->
  0 <= Rect.top (Bird.rect b) ->
  Rect.bottom (Bird.rect b) <= SCREEN_HEIGHT - GROUND_HEIGHT ->
  wf_pipe p ->
  hits_pipe b p = true
  <-> beside (Bird.rect b) p /\ ~ inside_gap (Bird.rect b) p.
Proof.
  intros Hw Hh Htop Hbot Hwf.
  rewrite (hits_pipe_strict b p Hw Hh Hwf).
  destruct Hwf as (Ht & Hb & Hrange). rewrite Ht, Hb.
  unfold overlap_strict, beside, inside_gap, Rect.left, Rect.right, Rect.top,
    Rect.bottom in *.
  cbn [Rect.x Rect.y Rect.w Rect.h].
  unfold SCREEN_HEIGHT, GROUND_HEIGHT, PIPE_GAP, PIPE_WIDTH in *. lia.
Qed.

(** X7.  A pipe of the stream is hit exactly when it shares columns with
    the bird and the bird is not inside its gap; a bird whose top is on the
    gap's top row or whose bottom is on the gap's bottom row is still
    inside. *)
Theorem hit_iff_outside_gap (fs : list Frame) (p : Pipe.t) :
  let st := game_loop fs initial_state in
  In p (pipes st) ->
  (hits_pipe (bird st) p = true
   <-> beside (Bird.rect (bird st)) p
       /\ ~ inside_gap (Bird.rect (bird st)) p).
Proof.
  intros st Hin.
  pose proof (Course_reachable fs) as HC. fold st in HC.
  destruct HC as [[Hx Hw Hh Hwf _] Htop Hbot _ _ _ _ _ _ _].
  rewrite Forall_forall in Hwf.
  apply hits_pipe_gap; try assumption; [rewrite Hw | rewrite Hh | auto]; lia.
Qed.

Lemma hit_iff_outside_gap_witness :
  let st := game_loop (firstn 335 (bobbing 0 12)) initial_state in
  let p := Pipe.mk 262 100 false (Rect.mk 262 0 50 100)
             (Rect.mk 262 250 50 250) in
  In p (pipes st)
  /\ hits_pipe (bird st) p = true
  /\ beside (Bird.rect (bird st)) p
  /\ ~ inside_gap (Bird.rect (bird st)) p.
Proof.
  cbv zeta.
  assert (Hin : In (Pipe.mk 262 100 false (Rect.mk 262 0 50 100)
                      (Rect.mk 262 250 50 250))
                   (pipes (game_loop (firstn 335 (bobbing 0 12))
                             initial_state)))
    by (vm_compute; left; reflexivity).
  assert (Hhit : hits_pipe
                   (bird (game_loop (firstn 335 (bobbing 0 12))
                            initial_state))
                   (Pipe.mk 262 100 false (Rect.mk 262 0 50 100)
                      (Rect.mk 262 250 50 250)) = true)
    by (vm_compute; reflexivity).
  split; [exact Hin | split; [exact Hhit |]].
  exact (proj1 (hit_iff_outside_gap (firstn 335 (bobbing 0 12)) _ Hin) Hhit).
Defined.

(** X8.  The game-over flag tells the truth about the field: it is set
    exactly when the bird stands on the ground line or overlaps a pipe of
    the stream. *)
Theorem game_over_iff_crashed (fs : list Frame) :
  let st := game_loop fs initial_state in
  game_over st = true
  <-> Rect.bottom (Bird.rect (bird st)) = SCREEN_HEIGHT - GROUND_HEIGHT
      \/ exists p, In p (pipes st) /\ hits_pipe (bird st) p = true.
Proof.
  intros st.
  pose proof (Course_reachable fs) as HC. fold st in HC.
  split.
  - intros Hgo.
    destruct (course_dead st HC Hgo) as [Hg | Hex]; [left; exact Hg |].
    right. apply Exists_exists in Hex. exact Hex.
  - intros H. destruct (game_over st) eqn:E; [reflexivity |].
    destruct (course_alive st HC E) as [Hb Hno].
    destruct H as [Hg | (p & Hin & Hp)]; [lia |].
    rewrite Forall_forall in Hno. rewrite (Hno p Hin) in Hp. discriminate.
Qed.



(** ** Quitting and waiting *)

Lemma handle_event_running (st : State) (e : Event) :
  running (handle_event st e) = running st && negb (is_quit e).
Proof.
  destruct (is_quit e) eqn:Eq.
  { destruct e; try discriminate. rewrite handle_quit. cbn [running negb].
    rewrite andb_false_r. reflexivity. }
  cbn [negb]. rewrite andb_true_r.
  destruct (is_space_press e) eqn:Es;
    [| rewrite (handle_ignored st e Eq Es); reflexivity].
  destruct e as [| [|] |]; try discriminate.
  destruct (start_screen st) eqn:Ess;
    [rewrite (handle_space_start st Ess); reflexivity |].
  destruct (game_over st) eqn:Eg.
  - rewrite (handle_space_restart st Ess Eg). reflexivity.
  - rewrite (handle_space_jump st Ess Eg). reflexivity.
Qed.

Lemma handle_events_running (es : list Event) :
  forall st,
    running (handle_events st es)
    = running st && negb (existsb is_quit es).
Proof.
  unfold handle_events.
  induction es as [|e es IH]; intros st; cbn [fold_left existsb].
  - rewrite andb_true_r. reflexivity.
  - rewrite IH, handle_event_running.
    destruct (running st), (is_quit e), (existsb is_quit es); reflexivity.
Qed.

Lemma game_logic_running (raw : Z) (st : State) :
  running (game_logic raw st) = running st.
Proof.
  destruct (phase st) eqn:Ep;
    try (rewrite game_logic_idle; [reflexivity | rewrite Ep; discriminate]).
  rewrite (game_logic_playing raw st Ep). reflexivity.
Qed.

Lemma frame_running (f : Frame) (st : State) :
  running (frame f st) = running st && negb (existsb is_quit (events f)).
Proof.
  unfold frame. rewrite game_logic_running. apply handle_events_running.
Qed.

(** X10.  A [QUIT] among the events of a frame ends the loop after that
    frame: the frame is still played to its end, and no later frame is
    read.  Nothing else ends the loop. *)
Theorem quit_ends_loop (f : Frame) (fs : list Frame) (st : State) :
  running st = true ->
  (In QUIT (events f) ->
   running (frame f st) = false /\ game_loop (f :: fs) st = frame f st)
  /\ (~ In QUIT (events f) -> running (frame f st) = true).
Proof.
  intros Hrun.
  assert (Hex : existsb is_quit (events f) = true <-> In QUIT (events f)).
  { rewrite existsb_exists. split.
    - intros (e & Hin & He). destruct e; try discriminate. exact Hin.
    - intros Hin. exists QUIT. split; [exact Hin | reflexivity]. }
  split.
  - intros Hin. apply Hex in Hin.
    assert (Hstop : running (frame f st) = false).
    { rewrite frame_running, Hin, Hrun. reflexivity. }
    split; [exact Hstop |].
    cbn [game_loop]. rewrite Hrun.
    destruct fs as [|g gs]; cbn [game_loop]; [reflexivity |].
    rewrite Hstop. reflexivity.
  - intros Hno. rewrite frame_running, Hrun.
    destruct (existsb is_quit (events f)) eqn:E; [| reflexivity].
    exfalso. apply Hno, Hex. reflexivity.
Qed.

Lemma quit_ends_loop_witness :
  let st := game_loop (free_fall 5) initial_state in
  let f := mkFrame [KEYDOWN K_SPACE; QUIT] 0 in
  running st = true
  /\ running (frame f st) = false
  /\ game_loop (f :: free_fall 3) st = frame f st.
Proof.
  cbv zeta.
  assert (Hrun : running (game_loop (free_fall 5) initial_state) = true)
    by (vm_compute; reflexivity).
  split; [exact Hrun |].
  apply (proj1 (quit_ends_loop (mkFrame [KEYDOWN K_SPACE; QUIT] 0)
                  (free_fall 3) _ Hrun)).
  cbn [events]. right. left. reflexivity.
Defined.

(** X11.  On the start screen and after game over nothing moves: a frame
    without a space press and without [QUIT] leaves every variable as it
    was. *)
Theorem waiting_changes_nothing (f : Frame) (st : State) :
  phase st <> Playing ->
  (forall e, In e (events f) -> e <> QUIT /\ e <> KEYDOWN K_SPACE) ->
  frame f st = st.
Proof.
  intros Hph Hev. unfold frame.
  assert (Hsame : handle_events st (events f) = st).
  { unfold handle_events. induction (events f) as [|e es IH];
      cbn [fold_left]; [reflexivity |].
    assert (He : handle_event st e = st).
    { destruct (Hev e (or_introl eq_refl)) as [Hq Hs].
      apply handle_ignored.
      - destruct e; try reflexivity. contradiction.
      - destruct e as [| [|] |]; try reflexivity. contradiction. }
    rewrite He. apply IH. intros e' Hin. apply Hev. right. exact Hin. }
  rewrite Hsame. apply game_logic_idle, Hph.
Qed.

Lemma waiting_changes_nothing_witness :
  let st := game_loop (free_fall 27) initial_state in
  let f := mkFrame [KEYDOWN K_OTHER; OTHER_EVENT] 5 in
  phase st = GameOver /\ frame f st = st.
Proof.
  cbv zeta. split; [vm_compute; reflexivity |].
  apply waiting_changes_nothing.
  - vm_compute. discriminate.
  - cbn [events]. intros e [<- | [<- | []]]; split; discriminate.
Defined.

(** ** The spawn cadence *)

(** A pipe fresh from the constructor goes through the pipe loop
    unflagged and stays in the stream. *)
Lemma update_pipes_fresh (bx hgt sc : Z) :
  bx <= SCREEN_WIDTH ->
  update_pipes bx [Pipe.init SCREEN_WIDTH hgt] sc
  = ([Pipe.update (Pipe.init SCREEN_WIDTH hgt)], sc).
Proof.
  intros Hbx. rewrite update_pipes_cons. cbv zeta.
  rewrite (pipe_body_waits bx sc (Pipe.init SCREEN_WIDTH hgt) eq_refl).
  - cbn [fst snd update_pipes]. reflexivity.
  - cbn [Pipe.update Pipe.init Pipe.x].
    unfold SCREEN_WIDTH, PIPE_SPEED, PIPE_WIDTH in *. lia.
Qed.

(** X12.  Take any frame whose game logic runs, with a jump or a restart
    among its events or not.  Its spawn step either takes the timer up by
    one and adds no pipe, or, on the frame that takes it to 90, puts it
    back to 0 while one new pipe, already moved [PIPE_SPEED] to the left of
    the screen's right edge, is put at the end of the stream. *)
Theorem spawn_every_interval (fs : list Frame) (f : Frame) :
  let st := handle_events (game_loop fs initial_state) (events f) in
  let st' := frame f (game_loop fs initial_state) in
  let fresh :=
    Pipe.update
      (Pipe.init SCREEN_WIDTH
         (randint 100 (SCREEN_HEIGHT - GROUND_HEIGHT - PIPE_GAP - 100)
            (entropy f))) in
  phase st = Playing ->
  if pipe_spawn_timer st =? pipe_spawn_interval - 1 then
    pipe_spawn_timer st' = 0
    /\ exists front, pipes st' = front ++ [fresh]
                     /\ (length front <= length (pipes st))%nat
  else
    pipe_spawn_timer st' = pipe_spawn_timer st + 1
    /\ (length (pipes st') <= length (pipes st))%nat.
Proof.
  intros st st' fresh Hph.
  assert (HC : Course st) by apply Course_handle_events, Course_reachable.
  pose proof (course_timer st HC) as Ht.
  pose proof (inv_bird_x st (course_inv st HC)) as Hx.
  assert (Hst' : st' = game_logic (entropy f) st) by reflexivity.
  rewrite Hst', (game_logic_playing (entropy f) st Hph). cbv zeta.
  cbn [pipe_spawn_timer pipes]. rewrite bird_update_x, Hx.
  destruct (spawn_pipes_cases (entropy f) (pipe_spawn_timer st) (pipes st))
    as [[Hge Hsp] | [Hlt Hsp]]; rewrite Hsp; cbn [fst snd].
  - replace (pipe_spawn_timer st =? pipe_spawn_interval - 1) with true
      by (symmetry; apply Z.eqb_eq; lia).
    split; [reflexivity |].
    rewrite update_pipes_app. cbn [fst].
    rewrite update_pipes_fresh by (unfold SCREEN_WIDTH; lia). cbn [fst].
    exists (fst (update_pipes 235 (pipes st) (score st))).
    split; [reflexivity | apply update_pipes_length].
  - replace (pipe_spawn_timer st =? pipe_spawn_interval - 1) with false
      by (symmetry; apply Z.eqb_neq; lia).
    split; [reflexivity | apply update_pipes_length].
Qed.

Lemma spawn_every_interval_witness :
  let st0 := game_loop (firstn 89 (bobbing 100 14)) initial_state in
  let f := press 100 in
  let st := handle_events st0 (events f) in
  phase st = Playing
  /\ Bird.velocity (bird st) = BIRD_JUMP_STRENGTH
  /\ pipe_spawn_timer st = 89
  /\ pipe_spawn_timer (frame f st0) = 0
  /\ exists front,
       pipes (frame f st0)
       = front ++ [Pipe.update (Pipe.init SCREEN_WIDTH 200)]
       /\ (length front <= length (pipes st))%nat.
Proof.
  cbv zeta.
  assert (Hph : phase (handle_events
                         (game_loop (firstn 89 (bobbing 100 14)) initial_state)
                         (events (press 100)))
                = Playing) by (vm_compute; reflexivity).
  assert (Ht : pipe_spawn_timer
                 (handle_events
                    (game_loop (firstn 89 (bobbing 100 14)) initial_state)
                    (events (press 100))) = 89)
    by (vm_compute; reflexivity).
  split; [exact Hph |].
  split; [vm_compute; reflexivity |].
  split; [exact Ht |].
  pose proof (spawn_every_interval (firstn 89 (bobbing 100 14)) (press 100) Hph)
    as H.
  rewrite Ht in H. exact H.
Defined.

(** ** How far the bird moves in a frame *)

(** X13.  Whenever the old top plus the new velocity is above minus one
    half, [update] moves the bird by the new velocity rounded to the
    nearest whole pixel, a half going down the screen: half a pixel per
    frame moves one pixel, and 7.5 pixels upward move seven.  The ceiling
    rule does not fire. *)
Theorem update_moves_by_nearest (b : Bird.t) :
  (- (1 # 2)
   < inject_Z (Rect.y (Bird.rect b)) + (Bird.velocity b + BIRD_GRAVITY))%Q ->
  Bird.update b
  = Bird.mk
      (Rect.set_y (Bird.rect b)
         (Rect.y (Bird.rect b)
          + Qfloor (Bird.velocity b + BIRD_GRAVITY + (1 # 2))))
      (Qred (Bird.velocity b + BIRD_GRAVITY)).
Proof.
  intros H. apply (update_moved b H).
Qed.

Lemma update_moves_by_nearest_witness :
  (- (1 # 2)
   < inject_Z (Rect.y (Bird.rect (Bird.jump Bird.init)))
     + (Bird.velocity (Bird.jump Bird.init) + BIRD_GRAVITY))%Q
  /\ Bird.update (Bird.jump Bird.init)
     = Bird.mk (Rect.mk 235 (285 + -7) 30 30) (-15 # 2).
Proof.
  split; [vm_compute; reflexivity |].
  apply (update_moves_by_nearest (Bird.jump Bird.init)).
  vm_compute. reflexivity.
Defined.

(** [update] right after a jump. *)
Lemma update_after_jump_eq (b : Bird.t) :
  Bird.update (Bird.jump b)
  = if Rect.y (Bird.rect b) <? 8
    then Bird.mk (Rect.set_y (Bird.rect b) 0) 0
    else Bird.mk (Rect.set_y (Bird.rect b) (Rect.y (Bird.rect b) - 7))
           (-15 # 2).
Proof.
  unfold Bird.update. cbv zeta. cbn [Bird.jump Bird.rect Bird.velocity].
  replace (Qred (BIRD_JUMP_STRENGTH + BIRD_GRAVITY)) with (-15 # 2)%Q
    by (vm_compute; reflexivity).
  rewrite (Qnearest_comp _ ((2 * Rect.y (Bird.rect b) - 15) # 2)).
  - rewrite Qnearest_half.
    unfold Rect.top, Rect.set_top, Rect.set_y. cbn [Rect.y].
    destruct (Z.ltb_spec (Rect.y (Bird.rect b)) 8) as [H8 | H8].
    + replace (2 * Rect.y (Bird.rect b) - 15 <? 0) with true
        by (symmetry; apply Z.ltb_lt; lia).
      replace (_ <? 0) with true; [reflexivity |].
      symmetry. apply Z.ltb_lt. Z.div_mod_to_equations. lia.
    + replace (2 * Rect.y (Bird.rect b) - 15 <? 0) with false
        by (symmetry; apply Z.ltb_ge; lia).
      replace ((2 * Rect.y (Bird.rect b) - 15 + 1) / 2)
        with (Rect.y (Bird.rect b) - 7)
        by (Z.div_mod_to_equations; lia).
      replace (_ <? 0) with false by (symmetry; apply Z.ltb_ge; lia).
      reflexivity.
  - unfold Qeq, Qplus, inject_Z. cbn [Qnum Qden].
    rewrite !Pos2Z.inj_mul. lia.
Qed.

(** X14.  A jump followed by the frame's update lifts the bird seven
    pixels, or up to the ceiling when fewer are left.  The bird leaves
    with velocity -7.5, unless its top was less than 8 pixels below the
    ceiling: then it is stopped there with velocity 0. *)
Theorem jump_lifts_seven (b : Bird.t) :
  let b' := Bird.update (Bird.jump b) in
  Rect.top (Bird.rect b') = Z.max 0 (Rect.y (Bird.rect b) - 7)
  /\ Bird.velocity b'
     = (if Rect.y (Bird.rect b) <? 8 then 0 else -15 # 2)%Q
  /\ Rect.x (Bird.rect b') = Rect.x (Bird.rect b).
Proof.
  intros b'. subst b'.
  split; [| split; [| rewrite bird_update_x; reflexivity]];
    rewrite update_after_jump_eq;
    destruct (Z.ltb_spec (Rect.y (Bird.rect b)) 8) as [H8 | H8];
    cbn [Bird.rect Bird.velocity]; try reflexivity;
    unfold Rect.top, Rect.set_y; cbn [Rect.y]; lia.
Qed.

(** ** The frame that starts or restarts the game *)








(** ** The bird's velocity *)

(** [update] for a velocity of [k] half pixels per frame. *)
Lemma update_half (b : Bird.t) (k : Z) :
  Bird.velocity b = Qred (k # 2) ->
  Bird.update b
  = let m := 2 * Rect.y (Bird.rect b) + k + 1 in
    let y1 := if m <? 0 then - ((1 - m) / 2) else (m + 1) / 2 in
    if y1 <? 0 then Bird.mk (Rect.set_y (Bird.rect b) 0) 0
    else Bird.mk (Rect.set_y (Bird.rect b) y1) (Qred ((k + 1) # 2)).
Proof.
  intros Hv. unfold Bird.update. cbv zeta. rewrite Hv.
  assert (Hq : Qred (Qred (k # 2) + BIRD_GRAVITY) = Qred ((k + 1) # 2)).
  { apply Qred_complete. rewrite Qred_correct.
    unfold BIRD_GRAVITY, Qeq, Qplus. cbn [Qnum Qden]. lia. }
  rewrite Hq.
  assert (Ht : Qnearest (inject_Z (Rect.y (Bird.rect b)) + Qred ((k + 1) # 2))
               = Qnearest ((2 * Rect.y (Bird.rect b) + k + 1) # 2)).
  { apply Qnearest_comp. rewrite Qred_correct.
    unfold Qeq, Qplus, inject_Z. cbn [Qnum Qden]. lia. }
  rewrite Ht, Qnearest_half. reflexivity.
Qed.

Lemma paced_handle_event (st : State) (e : Event) :
  Course st -> paced st -> paced (handle_event st e).
Proof.
  intros HC H.
  destruct (is_quit e) eqn:Eq.
  { destruct e; try discriminate. rewrite handle_quit. exact H. }
  destruct (is_space_press e) eqn:Es;
    [| rewrite (handle_ignored st e Eq Es); exact H].
  destruct e as [| [|] |]; try discriminate.
  destruct (start_screen st) eqn:Ess.
  { rewrite (handle_space_start st Ess). exact H. }
  destruct (game_over st) eqn:Eg.
  - rewrite (handle_space_restart st Ess Eg). exists 0.
    cbn [bird game_over]. split; [reflexivity |]. split; [lia |].
    intros _. vm_compute. discriminate.
  - rewrite (handle_space_jump st Ess Eg). exists (-16).
    cbn [bird game_over Bird.jump Bird.rect Bird.velocity].
    split; [reflexivity |]. split; [lia |].
    intros _. pose proof (course_top st HC) as Htop.
    unfold Rect.top in Htop. lia.
Qed.

Lemma paced_game_logic (raw : Z) (st : State) :
  Course st -> paced st -> paced (game_logic raw st).
Proof.
  intros HC (k & Hv & Hk & Hsq).
  destruct (phase st) eqn:Ep;
    try (rewrite game_logic_idle;
         [exists k; auto | rewrite Ep; discriminate]).
  rewrite (game_logic_playing raw st Ep). cbv zeta.
  apply phase_playing_flags in Ep as [Es Eg].
  specialize (Hsq Eg).
  pose proof (course_top st HC) as Htop. unfold Rect.top in Htop.
  destruct (course_alive st HC Eg) as [Hbot _].
  pose proof (inv_bird_h st (course_inv st HC)) as Hh.
  unfold Rect.bottom in Hbot. rewrite Hh in Hbot.
  unfold SCREEN_HEIGHT, GROUND_HEIGHT in Hbot.
  set (y := Rect.y (Bird.rect (bird st))) in *.
  assert (Hk63 : k <= 63) by nia.
  rewrite (update_half (bird st) k Hv). cbv zeta. fold y.
  set (y1 := if 2 * y + k + 1 <? 0
             then - ((1 - (2 * y + k + 1)) / 2)
             else (2 * y + k + 1 + 1) / 2).
  assert (Hy1 : 0 <= y1 -> 2 * y + k + 1 <= 2 * y1).
  { subst y1. destruct (Z.ltb_spec (2 * y + k + 1) 0);
      intros Hpos; Z.div_mod_to_equations; lia. }
  destruct (Z.ltb_spec y1 0) as [Hneg | Hpos].
  - exists 0. cbn [bird game_over].
    destruct (ground_check_cases (Bird.mk (Rect.set_y (Bird.rect (bird st)) 0) 0)
                (game_over st)) as [[_ Hgr] | [_ Hgr]]; rewrite Hgr;
      cbn [fst snd Bird.velocity Bird.rect];
      (split; [reflexivity | split; [lia |]]).
    + intros Hgo. rewrite pipe_check_true in Hgo. discriminate.
    + intros _. unfold Rect.set_y. cbn [Rect.y]. lia.
  - exists (k + 1). cbn [bird game_over].
    destruct (ground_check_cases
                (Bird.mk (Rect.set_y (Bird.rect (bird st)) y1)
                   (Qred ((k + 1) # 2)))
                (game_over st)) as [[_ Hgr] | [_ Hgr]]; rewrite Hgr;
      cbn [fst snd Bird.velocity Bird.rect];
      (split; [reflexivity | split; [lia |]]).
    + intros Hgo. rewrite pipe_check_true in Hgo. discriminate.
    + intros _. unfold Rect.set_y. cbn [Rect.y].
      specialize (Hy1 Hpos).
      destruct (Z_lt_le_dec k (-1)) as [Hk0 | Hk0]; nia.
Qed.

Lemma paced_game_loop (fs : list Frame) :
  forall st, Course st -> paced st -> paced (game_loop fs st).
Proof.
  induction fs as [|f fs IH]; intros st HC H; cbn [game_loop]; [exact H |].
  destruct (running st); [| exact H].
  unfold frame.
  assert (Hev : Course (handle_events st (events f))
                /\ paced (handle_events st (events f))).
  { unfold handle_events. revert st HC H.
    induction (events f) as [|e es IHe]; intros st HC H; cbn [fold_left];
      [split; assumption |].
    apply IHe; [apply Course_handle_event, HC | apply paced_handle_event; assumption]. }
  destruct Hev as [HC1 H1].
  apply IH; [apply Course_game_logic, HC1 | apply paced_game_logic; assumption].
Qed.

(** X16.  The bird's velocity is always a whole number of half pixels per
    frame, between -8 and 32. *)
Theorem velocity_in_half_steps (fs : list Frame) :
  exists k : Z,
    (Bird.velocity (bird (game_loop fs initial_state)) == k # 2)%Q
    /\ -16 <= k <= 64
    /\ (BIRD_JUMP_STRENGTH
        <= Bird.velocity (bird (game_loop fs initial_state)) <= 32)%Q.
Proof.
  assert (H0 : paced initial_state).
  { exists 0. split; [reflexivity |]. split; [lia |].
    intros _. vm_compute. discriminate. }
  destruct (paced_game_loop fs initial_state Course_initial H0)
    as (k & Hv & Hk & _).
  exists k.
  assert (Hq : (Bird.velocity (bird (game_loop fs initial_state)) == k # 2)%Q).
  { rewrite Hv. apply Qred_correct. }
  split; [exact Hq |]. split; [exact Hk |].
  rewrite Hq. unfold BIRD_JUMP_STRENGTH, Qle. cbn [Qnum Qden]. lia.
Qed.

(** ** One point at a time *)

Lemma chain_low (ps : list Pipe.t) (lx : Z) :
  chain ps lx ->
  Forall (fun q => lx - pipe_spacing * (Z.of_nat (length ps) - 1) <= Pipe.x q)
    ps.
Proof.
  induction ps as [|p rest IH]; intros H.
  - constructor.
  - destruct H as [Hp Hrest]. specialize (IH Hrest).
    constructor.
    + rewrite Hp. cbn [length]. unfold pipe_spacing. lia.
    + eapply Forall_impl; [| exact IH].
      intros q Hq. cbn beta in Hq. cbn [length].
      unfold pipe_spacing, PIPE_SPEED, pipe_spawn_interval in *. lia.
Qed.

Lemma filter_none (f : Pipe.t -> bool) (ps : list Pipe.t) :
  Forall (fun q => f q = false) ps -> filter f ps = [].
Proof.
  induction 1 as [|q qs Hq _ IH]; cbn [filter]; [reflexivity |].
  rewrite Hq. exact IH.
Qed.

(** Of pipes one spacing apart, at most one stands in a given stretch
    shorter than the spacing. *)
Lemma chain_window (f : Pipe.t -> bool) (a : Z) (ps : list Pipe.t) (lx : Z) :
  (forall q, In q ps -> f q = true -> a <= Pipe.x q < a + pipe_spacing) ->
  chain ps lx -> (length (filter f ps) <= 1)%nat.
Proof.
  induction ps as [|p rest IH]; intros Hf H; cbn [filter].
  - cbn. lia.
  - destruct H as [Hp Hrest].
    assert (Hf' : forall q, In q rest -> f q = true ->
                    a <= Pipe.x q < a + pipe_spacing).
    { intros q Hin. apply Hf. right. exact Hin. }
    destruct (f p) eqn:E; [| apply IH; assumption].
    rewrite filter_none; [cbn; lia |].
    pose proof (chain_low rest lx Hrest) as Hlow.
    rewrite Forall_forall in Hlow. apply Forall_forall.
    intros q Hin. specialize (Hlow q Hin). cbn beta in Hlow.
    destruct (f q) eqn:Eq; [| reflexivity].
    pose proof (Hf p (or_introl eq_refl) E). pose proof (Hf' q Hin Eq).
    unfold pipe_spacing, PIPE_SPEED, pipe_spawn_interval in *. lia.
Qed.

(** X17.  The game logic of any frame, with a jump or a restart among its
    events or not, adds at most one point to the score the events left,
    and never takes one away: two pipes never pass the bird in the same
    frame. *)
Theorem one_point_per_frame (fs : list Frame) (f : Frame) :
  let st := handle_events (game_loop fs initial_state) (events f) in
  let st' := frame f (game_loop fs initial_state) in
  score st <= score st' <= score st + 1.
Proof.
  intros st st'.
  assert (Hst' : st' = game_logic (entropy f) st) by reflexivity.
  rewrite Hst'. split; [apply game_logic_score_mono |].
  destruct (phase st) eqn:Ep;
    try (rewrite game_logic_idle; [lia | rewrite Ep; discriminate]).
  assert (HC : Course st) by apply Course_handle_events, Course_reachable.
  pose proof (inv_bird_x st (course_inv st HC)) as Hx.
  rewrite (game_logic_playing (entropy f) st Ep). cbv zeta. cbn [score].
  rewrite bird_update_x, Hx, update_pipes_gain.
  destruct (spawn_pipes_chain (entropy f) (pipe_spawn_timer st) (pipes st)
              (course_timer st HC) (course_chain st HC)) as [_ Hch].
  assert (Hfl : Forall (fun p => Pipe.passed p
                                 = (Pipe.x p + PIPE_WIDTH <? 235))
                  (fst (spawn_pipes (entropy f) (pipes st)
                          (pipe_spawn_timer st)))).
  { apply spawn_pipes_flags; [unfold SCREEN_WIDTH; lia |].
    pose proof (course_flags st HC) as H. rewrite Hx in H. exact H. }
  rewrite Forall_forall in Hfl.
  assert (Hone :
    (length (filter
               (fun q => negb (Pipe.passed q)
                         && Pipe.passed (fst (fst (pipe_body 235 q 0))))
               (fst (spawn_pipes (entropy f) (pipes st)
                       (pipe_spawn_timer st))))
     <= 1)%nat).
  { apply (chain_window _ 185 _ _) with (2 := Hch).
    intros q Hin Hq. apply andb_true_iff in Hq as [H1 H2].
    rewrite pipe_body_passed in H2.
    pose proof (Hfl q Hin) as Hflag.
    destruct (Pipe.passed q); [discriminate |].
    cbn [orb] in H2. apply Z.ltb_lt in H2.
    symmetry in Hflag. apply Z.ltb_ge in Hflag.
    unfold pipe_spacing, PIPE_SPEED, PIPE_WIDTH, pipe_spawn_interval in *.
    lia. }
  lia.
Qed.

(** Four pipes do occur: the stream after 361 frames of bobbing. *)
Example four_pipes_after_361_frames :
  map Pipe.x (pipes (game_loop (firstn 361 (bobbing 100 14)) initial_state))
  = [184; 454; 724; 994].
Proof. vm_compute. reflexivity. Qed.
